(** * curl_stream.c: the curl-backed [git_stream]

    A shallow embedding of libgit2's [src/curl_stream.c] (the [GIT_CURL]
    branch) and the properties of its connect / certificate / read / write /
    close operations and of its factory.

    The file talks to three collaborators it does not define: libcurl's easy
    interface, [select(2)] and libgit2's allocator and error sink.  They are
    modelled as a [world]: the replies each primitive is going to give, in
    order, the log of the calls made so far, and the last error recorded by
    [giterr_set].  A primitive whose replies are used up never returns, which
    is what [None] stands for in the monad [W]. *)

From Stdlib Require Import ZArith List String Ascii Bool Lia.
From ExtLib Require Import Structures.Monad Structures.MonadState.
From ExtLib Require Import Data.Monads.StateMonad Data.Monads.OptionMonad.
Import ListNotations MonadNotation.
Local Open Scope string_scope.
Local Open Scope monad_scope.
Local Open Scope Z_scope.

#[local] Existing Instance Monad_stateT.

(** ** Machine integers *)

(** [size_t] is 64 bits wide and unsigned, [ssize_t] and [long] are 64 bits
    and signed, [int] is 32 bits and signed (LP64). *)
Definition SIZE_MODULUS : Z := 2 ^ 64.
Definition SSIZE_MAX : Z := 2 ^ 63 - 1.
Definition INT_MODULUS : Z := 2 ^ 32.

(** A value stored into a [size_t]. *)
Definition to_size (z : Z) : Z := z mod SIZE_MODULUS.

(** [off += sent] and [len - off] on [size_t]. *)
Definition size_add (a b : Z) : Z := to_size (a + b).
Definition size_sub (a b : Z) : Z := to_size (a - b).

(** [return len;] from a function returning [ssize_t]: the conversion of a
    [size_t] to the signed type of the same width. *)
Definition ssize_of_size (z : Z) : Z :=
  let u := to_size z in
  if u <=? SSIZE_MAX then u else u - SIZE_MODULUS.

(** [s->socket = sockextr;]: a [long] stored into [curl_socket_t], an [int]. *)
Definition int_of_long (z : Z) : Z :=
  let u := z mod INT_MODULUS in
  if u <? 2 ^ 31 then u else u - INT_MODULUS.

(** The null pointer. *)
Definition NULL : Z := 0.

(** C truth of an [int]. *)
Definition truthy (z : Z) : bool := negb (z =? 0).

(** ** Result codes and tags *)

(** libcurl's [CURLcode].  The source tells three codes apart; every other
    code is [CURLE_other] with its number. *)
Inductive CURLcode : Type :=
| CURLE_OK
| CURLE_PEER_FAILED_VERIFICATION
| CURLE_AGAIN
| CURLE_other (n : positive).

Definition CURLcode_eqb (a b : CURLcode) : bool :=
  match a, b with
  | CURLE_OK, CURLE_OK => true
  | CURLE_PEER_FAILED_VERIFICATION, CURLE_PEER_FAILED_VERIFICATION => true
  | CURLE_AGAIN, CURLE_AGAIN => true
  | CURLE_other n, CURLE_other m => Pos.eqb n m
  | _, _ => false
  end.

(** The error classes the file passes to [giterr_set], and the one the port
    parser reports. *)
Inductive git_error_t : Type :=
| GITERR_OS
| GITERR_INVALID
| GITERR_NET.

(** [git_cert_t]. *)
Inductive git_cert_t : Type :=
| GIT_CERT_NONE
| GIT_CERT_X509
| GIT_CERT_HOSTKEY_LIBSSH2.

(** Modelled from the spec: [GIT_ECERTIFICATE] is declared in git2/errors.h,
    which is not among the sources; the spec asks for a dedicated
    certificate-error result distinct from the generic failure.  libgit2's
    value is -17. *)
Definition GIT_ECERTIFICATE : Z := -17.

(** Modelled from the spec: [GIT_STREAM_VERSION], the version tag of the
    stream header, from git2/sys/stream.h. *)
Definition GIT_STREAM_VERSION : Z := 1.

(** ** The stream *)

(** The header [git_stream]: the version tag and the [encrypted] flag, an
    [int].  Its table of function pointers always holds the six [curls_]
    functions below and is left out. *)
Record git_stream : Type := mk_git_stream {
  version : Z;
  encrypted : Z
}.

(** [git_cert_x509]: a type tag, a pointer to the raw bytes, their length. *)
Record git_cert_x509 : Type := mk_git_cert_x509 {
  cert_type : git_cert_t;
  cert_data : Z;
  cert_len : Z
}.

(** [curl_stream].  [handle] is the [CURL *], a pointer; [curl_error] is the
    text held by the error buffer. *)
Record curl_stream : Type := mk_curl_stream {
  parent : git_stream;
  handle : Z;
  socket : Z;
  curl_error : string;
  cert_info : git_cert_x509
}.

Definition set_parent (s : curl_stream) (p : git_stream) : curl_stream :=
  mk_curl_stream p (handle s) (socket s) (curl_error s) (cert_info s).

(** [s->parent.encrypted]. *)
Definition encrypted_of (s : curl_stream) : Z := encrypted (parent s).

Definition set_handle (s : curl_stream) (h : Z) : curl_stream :=
  mk_curl_stream (parent s) h (socket s) (curl_error s) (cert_info s).

Definition set_socket (s : curl_stream) (fd : Z) : curl_stream :=
  mk_curl_stream (parent s) (handle s) fd (curl_error s) (cert_info s).

Definition set_curl_error (s : curl_stream) (m : string) : curl_stream :=
  mk_curl_stream (parent s) (handle s) (socket s) m (cert_info s).

Definition set_cert_info (s : curl_stream) (c : git_cert_x509) : curl_stream :=
  mk_curl_stream (parent s) (handle s) (socket s) (curl_error s) c.

(** What [git__calloc] hands out: all fields zero. *)
Definition zeroed_stream : curl_stream :=
  mk_curl_stream (mk_git_stream 0 0) NULL 0 "" (mk_git_cert_x509 GIT_CERT_NONE NULL 0).

(** ** The world *)

(** An [fd_set], as the list of descriptors put into it. *)
Definition fd_set : Type := list Z.
Definition FD_ZERO : fd_set := [].
Definition FD_SET (fd : Z) (set : fd_set) : fd_set := fd :: set.

(** [FD_SETSIZE], from <sys/select.h>.  [FD_SET] is defined for the
    descriptors 0 .. [FD_SETSIZE] - 1 only: for any other the C code writes
    outside the set, and the [select] the model logs for [wait_for] says
    nothing about what the code does.  The model follows the code for the
    descriptors of that range. *)
Definition FD_SETSIZE : Z := 1024.

(** The options the factory sets on the handle. *)
Inductive CURLoption : Type :=
| CURLOPT_URL (url : string)
| CURLOPT_ERRORBUFFER
| CURLOPT_PORT (port : Z)
| CURLOPT_CONNECT_ONLY (v : Z)
| CURLOPT_SSL_VERIFYPEER (v : Z)
| CURLOPT_CERTINFO (v : Z).

(** A call that leaves the program, with its arguments. *)
Inductive call : Type :=
| Call_calloc
| Call_free
| Call_init
| Call_setopt (h : Z) (o : CURLoption)
| Call_perform (h : Z)
| Call_getinfo_lastsocket (h : Z)
| Call_send (h : Z) (buf : Z) (n : Z)
| Call_recv (h : Z) (buf : Z) (n : Z)
| Call_cleanup (h : Z)
| Call_select (nfds : Z) (infd outfd errfd : fd_set).

(** What a libcurl call answers: its [CURLcode], the value it stores through
    its out parameter ([sockextr], [sent], [read]), and the text it puts into
    the buffer registered with [CURLOPT_ERRORBUFFER], if it writes one. *)
Record curl_reply : Type := mk_curl_reply {
  code : CURLcode;
  out : Z;
  errtext : option string
}.

(** The replies still to come, one queue per primitive: [git__calloc]
    (does it succeed), [curl_easy_init] (the handle, [NULL] on failure),
    [curl_easy_perform], [curl_easy_getinfo], [curl_easy_send],
    [curl_easy_recv], and [select] (its return value). *)
Record pending : Type := mk_pending {
  callocs : list bool;
  inits : list Z;
  performs : list curl_reply;
  getinfos : list curl_reply;
  sends : list curl_reply;
  recvs : list curl_reply;
  selects : list Z
}.

Record world : Type := mk_world {
  giterr : option (git_error_t * string);
  trace : list call;
  env : pending
}.

Definition no_replies : pending := mk_pending [] [] [] [] [] [] [].

(** [W A]: a computation that reads and changes the world and, if the
    primitives it calls all return, yields an [A]. *)
Definition W : Type -> Type := stateT world option.

Definition run {A : Type} (c : W A) (w : world) : option (A * world) :=
  runStateT c w.

(** The call that never returns. *)
Definition never {A : Type} : W A := mkStateT (fun _ => None).

(** Record a call in the log. *)
Definition emit (c : call) : W unit :=
  modify (fun w => mk_world (giterr w) (trace w ++ [c]) (env w)) ;; ret tt.

(** Take the next reply of one queue; [rest] puts the shortened queue back. *)
Definition next_reply {R : Type} (queue : pending -> list R)
    (rest : pending -> list R -> pending) : W R :=
  w <- get ;;
  match queue (env w) with
  | [] => never
  | r :: q => put (mk_world (giterr w) (trace w) (rest (env w) q)) ;; ret r
  end.

Definition rest_callocs (p : pending) (q : list bool) : pending :=
  mk_pending q (inits p) (performs p) (getinfos p) (sends p) (recvs p) (selects p).
Definition rest_inits (p : pending) (q : list Z) : pending :=
  mk_pending (callocs p) q (performs p) (getinfos p) (sends p) (recvs p) (selects p).
Definition rest_performs (p : pending) (q : list curl_reply) : pending :=
  mk_pending (callocs p) (inits p) q (getinfos p) (sends p) (recvs p) (selects p).
Definition rest_getinfos (p : pending) (q : list curl_reply) : pending :=
  mk_pending (callocs p) (inits p) (performs p) q (sends p) (recvs p) (selects p).
Definition rest_sends (p : pending) (q : list curl_reply) : pending :=
  mk_pending (callocs p) (inits p) (performs p) (getinfos p) q (recvs p) (selects p).
Definition rest_recvs (p : pending) (q : list curl_reply) : pending :=
  mk_pending (callocs p) (inits p) (performs p) (getinfos p) (sends p) q (selects p).
Definition rest_selects (p : pending) (q : list Z) : pending :=
  mk_pending (callocs p) (inits p) (performs p) (getinfos p) (sends p) (recvs p) q.

(** Modelled from the spec: [giterr_set] is defined in errors.c, which is not
    among the sources; the spec describes it as an error-reporting sink that
    accepts a category tag and a formatted message.  It keeps the last one. *)
Definition giterr_set (cls : git_error_t) (msg : string) : W unit :=
  modify (fun w => mk_world (Some (cls, msg)) (trace w) (env w)) ;; ret tt.

(** The primitives: each logs its call, then takes its reply. *)
Definition git__calloc : W bool :=
  emit Call_calloc ;; next_reply callocs rest_callocs.

Definition git__free : W unit := emit Call_free.

Definition curl_easy_init : W Z :=
  emit Call_init ;; next_reply inits rest_inits.

Definition curl_easy_setopt (h : Z) (o : CURLoption) : W unit :=
  emit (Call_setopt h o).

Definition curl_easy_perform (h : Z) : W curl_reply :=
  emit (Call_perform h) ;; next_reply performs rest_performs.

Definition curl_easy_getinfo_lastsocket (h : Z) : W curl_reply :=
  emit (Call_getinfo_lastsocket h) ;; next_reply getinfos rest_getinfos.

Definition curl_easy_send (h buf n : Z) : W curl_reply :=
  emit (Call_send h buf n) ;; next_reply sends rest_sends.

Definition curl_easy_recv (h buf n : Z) : W curl_reply :=
  emit (Call_recv h buf n) ;; next_reply recvs rest_recvs.

Definition curl_easy_cleanup (h : Z) : W unit := emit (Call_cleanup h).

Definition select (nfds : Z) (infd outfd errfd : fd_set) : W Z :=
  emit (Call_select nfds infd outfd errfd) ;; next_reply selects rest_selects.

(** The stream's error buffer after a libcurl call: libcurl writes into the
    buffer the factory registered, so the field changes under the call. *)
Definition errbuf_after (s : curl_stream) (r : curl_reply) : curl_stream :=
  match errtext r with
  | Some m => set_curl_error s m
  | None => s
  end.

(** ** The operations *)

Definition newline : string := String (ascii_of_nat 10) EmptyString.

(** [seterr_curl]. *)
Definition seterr_curl (s : curl_stream) : W Z :=
  giterr_set GITERR_NET ("curl error: " ++ curl_error s ++ newline) ;;
  ret (-1).

(** [curls_connect].  The result is the [int] returned and the stream as the
    call leaves it. *)
Definition curls_connect (s : curl_stream) : W (Z * curl_stream) :=
  let failed_cert := 0 in
  r <- curl_easy_perform (handle s) ;;
  let s := errbuf_after s r in
  let res := code r in
  if negb (CURLcode_eqb res CURLE_OK)
     && negb (CURLcode_eqb res CURLE_PEER_FAILED_VERIFICATION)
  then e <- seterr_curl s ;; ret (e, s)
  else
    let failed_cert :=
      if CURLcode_eqb res CURLE_PEER_FAILED_VERIFICATION then 1 else failed_cert in
    r <- curl_easy_getinfo_lastsocket (handle s) ;;
    let s := errbuf_after s r in
    let sockextr := out r in
    if negb (CURLcode_eqb (code r) CURLE_OK)
    then e <- seterr_curl s ;; ret (e, s)
    else
      let s := set_socket s (int_of_long sockextr) in
      if truthy (encrypted (parent s)) && truthy failed_cert
      then ret (GIT_ECERTIFICATE, s)
      else ret (0, s).

(** [curls_certificate]: the [int] returned, the record [*out] points to,
    and the stream. *)
Definition curls_certificate (s : curl_stream) : Z * git_cert_x509 * curl_stream :=
  let s := set_cert_info s (mk_git_cert_x509 GIT_CERT_X509 (cert_data (cert_info s)) (cert_len (cert_info s))) in
  let s := set_cert_info s (mk_git_cert_x509 (cert_type (cert_info s)) NULL (cert_len (cert_info s))) in
  let s := set_cert_info s (mk_git_cert_x509 (cert_type (cert_info s)) (cert_data (cert_info s)) 0) in
  (0, cert_info s, s).

(** [wait_for].  It follows the code for a descriptor from 0 to
    [FD_SETSIZE] - 1, the ones [FD_SET] is defined for. *)
Definition wait_for (fd : Z) (reading : bool) : W Z :=
  let infd := FD_ZERO in
  let outfd := FD_ZERO in
  let errfd := FD_ZERO in
  let errfd := FD_SET fd errfd in
  let infd := if reading then FD_SET fd infd else infd in
  let outfd := if reading then outfd else FD_SET fd outfd in
  r <- select (fd + 1) infd outfd errfd ;;
  if r <? 0
  then giterr_set GITERR_OS "error in select" ;; ret (-1)
  else ret 0.

(** The [do ... while] of [curls_write], entered with the offset [off].
    Every round takes one reply of [select], so [n] rounds are all there can
    be in a world with fewer than [n] such replies left. *)
Fixpoint write_loop (n : nat) (s : curl_stream) (data len off : Z)
    : W (Z * curl_stream) :=
  match n with
  | O => never
  | S n =>
    error <- wait_for (socket s) false ;;
    if error <? 0 then ret (error, s)
    else
      r <- curl_easy_send (handle s) (data + off) (size_sub len off) ;;
      let s := errbuf_after s r in
      let res := code r in
      let sent := to_size (out r) in
      let off := if CURLcode_eqb res CURLE_OK then size_add off sent else off in
      if (CURLcode_eqb res CURLE_OK || CURLcode_eqb res CURLE_AGAIN) && (off <? len)
      then write_loop n s data len off
      else
        if negb (CURLcode_eqb res CURLE_OK)
        then e <- seterr_curl s ;; ret (e, s)
        else ret (ssize_of_size len, s)
  end.

(** [curls_write].  [data] is the address of the caller's bytes, [len] their
    number, a [size_t]. *)
Definition curls_write (s : curl_stream) (data len flags : Z) : W (Z * curl_stream) :=
  w <- get ;;
  write_loop (S (List.length (selects (env w)))) s data len 0.

(** The [do ... while] of [curls_read]. *)
Fixpoint read_loop (n : nat) (s : curl_stream) (data len : Z)
    : W (Z * curl_stream) :=
  match n with
  | O => never
  | S n =>
    error <- wait_for (socket s) true ;;
    if error <? 0 then ret (error, s)
    else
      r <- curl_easy_recv (handle s) data len ;;
      let s := errbuf_after s r in
      let res := code r in
      let read := to_size (out r) in
      if CURLcode_eqb res CURLE_AGAIN
      then read_loop n s data len
      else
        if negb (CURLcode_eqb res CURLE_OK)
        then e <- seterr_curl s ;; ret (e, s)
        else ret (ssize_of_size read, s)
  end.

(** [curls_read]. *)
Definition curls_read (s : curl_stream) (data len : Z) : W (Z * curl_stream) :=
  w <- get ;;
  read_loop (S (List.length (selects (env w)))) s data len.

(** [curls_close]. *)
Definition curls_close (s : curl_stream) : W (Z * curl_stream) :=
  if negb (truthy (handle s)) then ret (0, s)
  else
    curl_easy_cleanup (handle s) ;;
    let s := set_handle s NULL in
    let s := set_socket s 0 in
    ret (0, s).

(** [curls_free]. *)
Definition curls_free (s : curl_stream) : W unit :=
  curls_close s ;;
  git__free.

(** ** The factory *)

Section Factory.

(** [git__strtol32] is defined in util.c, which is not among the sources.  It
    is taken as given: applied to the text and the base it may report an
    error, and yields its [int] result together with the value it stores
    through its first argument, if it stores one. *)
Variable git__strtol32 : string -> Z -> W (Z * option Z).

(** [git_curl_stream_new]: the [int] returned and the stream put into
    [*out], if one is.  [git__calloc] answers whether it could allocate; the
    fresh stream is all zeroes. *)
Definition git_curl_stream_new (host port : string) (encrypted : Z)
    : W (Z * option curl_stream) :=
  let iport := 0 in
  allocated <- git__calloc ;;
  if negb allocated then ret (-1, None)
  else
    let st := zeroed_stream in
    handle <- curl_easy_init ;;
    if handle =? NULL
    then giterr_set GITERR_NET "failed to create curl handle" ;; ret (-1, None)
    else
      p <- git__strtol32 port 10 ;;
      let error := fst p in
      let iport := match snd p with Some v => v | None => iport end in
      if error <? 0 then ret (error, None)
      else
        (if truthy encrypted
         then curl_easy_setopt handle (CURLOPT_URL ("https://" ++ host))
         else curl_easy_setopt handle (CURLOPT_URL host)) ;;
        curl_easy_setopt handle CURLOPT_ERRORBUFFER ;;
        curl_easy_setopt handle (CURLOPT_PORT iport) ;;
        curl_easy_setopt handle (CURLOPT_CONNECT_ONLY 1) ;;
        curl_easy_setopt handle (CURLOPT_SSL_VERIFYPEER 1) ;;
        curl_easy_setopt handle (CURLOPT_CERTINFO 1) ;;
        let st := set_parent st (mk_git_stream GIT_STREAM_VERSION (encrypted_of st)) in
        let st := set_parent st (mk_git_stream (version (parent st)) encrypted) in
        let st := set_handle st handle in
        ret (0, Some st).

End Factory.

(** A decimal digit, and the value of a run of them read after [acc]; [None]
    when another character turns up.  Both serve [strtol32_dec] below. *)
Definition is_digit (c : ascii) : bool :=
  ((48 <=? nat_of_ascii c) && (nat_of_ascii c <=? 57))%nat.

Fixpoint digits_value (acc : Z) (t : string) : option Z :=
  match t with
  | EmptyString => Some acc
  | String c t =>
    if is_digit c
    then digits_value (10 * acc + (Z.of_nat (nat_of_ascii c) - 48)) t
    else None
  end.

(** The failure of [strtol32_dec]: an invalid-input error is recorded and -1
    returned, nothing stored. *)
Definition not_a_number : W (Z * option Z) :=
  giterr_set GITERR_INVALID "Failed to convert string to long. Not a number" ;;
  ret (-1, None).

(** Modelled from the spec: a stand-in for libgit2's [git__strtol32] (util.c,
    not among the sources), used to run the factory on concrete ports.  The
    spec has the port "textual, parsed as base-10 integer; parse failure is a
    propagated error": a non-empty run of decimal digits that fits an [int]
    yields its value, anything else reports an invalid-input error and
    returns -1.  The base is not looked at: the factory only asks for 10. *)
Definition strtol32_dec (nptr : string) (base : Z) : W (Z * option Z) :=
  match nptr with
  | EmptyString => not_a_number
  | _ =>
    match digits_value 0 nptr with
    | Some v => if v <? 2 ^ 31 then ret (0, Some v) else not_a_number
    | None => not_a_number
    end
  end.

(** ** Vocabulary of the statements *)

(** The world after one more call has been logged. *)
Definition logged (c : call) (w : world) : world :=
  mk_world (giterr w) (trace w ++ [c]) (env w).

(** The world with another last error. *)
Definition failed (cls : git_error_t) (msg : string) (w : world) : world :=
  mk_world (Some (cls, msg)) (trace w) (env w).

(** The world with other replies to come. *)
Definition with_env (p : pending) (w : world) : world :=
  mk_world (giterr w) (trace w) p.

(** The network error [seterr_curl] records for a stream. *)
Definition net_error (s : curl_stream) : option (git_error_t * string) :=
  Some (GITERR_NET, "curl error: " ++ curl_error s ++ newline).

(** The error [wait_for] records. *)
Definition select_error : option (git_error_t * string) :=
  Some (GITERR_OS, "error in select").

(** The call [wait_for] makes. *)
Definition wait_call (fd : Z) (reading : bool) : call :=
  Call_select (fd + 1)
    (if reading then [fd] else []) (if reading then [] else [fd]) [fd].

(** The stream's error buffer after a run of libcurl calls. *)
Definition errbuf_after_all (s : curl_stream) (l : list curl_reply) : curl_stream :=
  fold_left errbuf_after l s.

(** The calls of [k] rounds of the read loop. *)
Fixpoint read_rounds (k : nat) (s : curl_stream) (data len : Z) : list call :=
  match k with
  | O => []
  | S k => wait_call (socket s) true :: Call_recv (handle s) data len
           :: read_rounds k s data len
  end.

(** The bytes one reply of [curl_easy_send] takes: [sent] when it succeeds. *)
Definition accepted (r : curl_reply) : Z :=
  if CURLcode_eqb (code r) CURLE_OK then to_size (out r) else 0.

Definition total_accepted (l : list curl_reply) : Z :=
  fold_right (fun r acc => accepted r + acc) 0 l.

(** A reply of the transport that would block, or takes a chunk that is not
    empty. *)
Definition chunk_or_again (r : curl_reply) : Prop :=
  code r = CURLE_AGAIN \/ (code r = CURLE_OK /\ 0 < to_size (out r)).

(** A code after which the loops stop and fail. *)
Definition hard_failure (c : CURLcode) : Prop :=
  c <> CURLE_OK /\ c <> CURLE_AGAIN.

(** The offset of [curls_write] after one reply of [curl_easy_send], and
    after a run of them. *)
Definition next_offset (off : Z) (g : curl_reply) : Z :=
  if CURLcode_eqb (code g) CURLE_OK then size_add off (to_size (out g)) else off.

Definition offset_after (off : Z) (l : list curl_reply) : Z :=
  fold_left next_offset l off.

(** The calls of the rounds of the write loop that the replies [l] answer,
    the first entered with the offset [off]. *)
Fixpoint write_rounds (s : curl_stream) (data len off : Z) (l : list curl_reply)
    : list call :=
  match l with
  | [] => []
  | g :: l =>
    wait_call (socket s) false
    :: Call_send (handle s) (data + off) (size_sub len off)
    :: write_rounds s data len (next_offset off g) l
  end.

(** A reply that would block. *)
Definition would_block (r : curl_reply) : Prop := code r = CURLE_AGAIN.

(** A reply of [curl_easy_send] that leaves the offset where it is: it would
    block, or it succeeds with no byte taken. *)
Definition no_progress (r : curl_reply) : Prop :=
  code r = CURLE_AGAIN \/ (code r = CURLE_OK /\ to_size (out r) = 0).

(** The last text a run of replies puts into the error buffer, [m] if none
    of them writes one. *)
Definition last_errtext (m : string) (l : list curl_reply) : string :=
  fold_left (fun m r => match errtext r with Some m' => m' | None => m end) l m.

(** ** Concrete streams and worlds *)

(** A stream as the factory leaves it, with its handle at some address. *)
Definition fresh_stream (enc : Z) : curl_stream :=
  mk_curl_stream (mk_git_stream GIT_STREAM_VERSION enc) 4096 0 ""
    (mk_git_cert_x509 GIT_CERT_NONE NULL 0).

(** A reply that leaves the error buffer alone. *)
Definition quiet (c : CURLcode) (v : Z) : curl_reply := mk_curl_reply c v None.

(** A world in which nothing has happened yet. *)
Definition world_of (p : pending) : world := mk_world None [] p.

(** The peer's certificate does not verify, and the socket cannot be had
    from the handle either. *)
Definition world_cert_then_no_socket : world :=
  world_of (mk_pending [] []
    [mk_curl_reply CURLE_PEER_FAILED_VERIFICATION 0 (Some "SSL certificate problem")]
    [mk_curl_reply (CURLE_other 43) 0 (Some "no socket")]
    [] [] []).

(** The peer's certificate does not verify; the socket is descriptor 5. *)
Definition world_cert_failed : world :=
  world_of (mk_pending [] []
    [mk_curl_reply CURLE_PEER_FAILED_VERIFICATION 0 (Some "SSL certificate problem")]
    [quiet CURLE_OK 5]
    [] [] []).

(** The stream and the world that connect leaves behind in
    [world_cert_failed]. *)
Definition stream_cert_failed : curl_stream :=
  mk_curl_stream (mk_git_stream GIT_STREAM_VERSION 1) 4096 5 "SSL certificate problem"
    (mk_git_cert_x509 GIT_CERT_NONE NULL 0).

Definition world_after_cert_failed : world :=
  mk_world None [Call_perform 4096; Call_getinfo_lastsocket 4096] no_replies.

(** Twice the transport would block, then it has 3 bytes. *)
Definition world_read_after_two_retries : world :=
  world_of (mk_pending [] [] [] [] []
    [quiet CURLE_AGAIN 0; quiet CURLE_AGAIN 0; quiet CURLE_OK 3; quiet CURLE_OK 9]
    [1; 1; 1; 1]).

(** The transport takes 10 bytes as 4, nothing (it would block), 5 and 1. *)
Definition world_write_in_chunks : world :=
  world_of (mk_pending [] [] [] []
    [quiet CURLE_OK 4; quiet CURLE_AGAIN 0; quiet CURLE_OK 5; quiet CURLE_OK 1]
    [] [1; 1; 1; 1; 1]).

(** The stream [stream_cert_failed] once closed. *)
Definition stream_closed : curl_stream :=
  mk_curl_stream (mk_git_stream GIT_STREAM_VERSION 1) NULL 0 "SSL certificate problem"
    (mk_git_cert_x509 GIT_CERT_NONE NULL 0).





(** The peer's certificate does not verify, the socket is descriptor 5, and
    the first wait on it fails. *)
Definition world_cert_failed_wait_fails : world :=
  world_of (mk_pending [] []
    [mk_curl_reply CURLE_PEER_FAILED_VERIFICATION 0 (Some "SSL certificate problem")]
    [quiet CURLE_OK 5]
    [] [] [-1]).

(** The allocation succeeds and [curl_easy_init] gives a handle. *)
Definition world_factory : world :=
  world_of (mk_pending [true] [4096] [] [] [] [] []).

(** The allocation succeeds and [curl_easy_init] gives none. *)
Definition world_factory_no_handle : world :=
  world_of (mk_pending [true] [NULL] [] [] [] [] []).

(** The transport takes 4 of 10 bytes, would block, then fails. *)
Definition world_write_breaks : world :=
  world_of (mk_pending [] [] [] []
    [quiet CURLE_OK 4; quiet CURLE_AGAIN 0;
     mk_curl_reply (CURLE_other 55) 0 (Some "Send failure: Broken pipe");
     quiet CURLE_OK 6]
    [] [1; 1; 1; 1]).

(** The transport would block, three times over, for reading and for
    writing, and the descriptor is ready every time. *)
Definition world_stalled : world :=
  world_of (mk_pending [] [] [] []
    [quiet CURLE_AGAIN 0; quiet CURLE_OK 0; quiet CURLE_AGAIN 0]
    [quiet CURLE_AGAIN 0; quiet CURLE_AGAIN 0; quiet CURLE_AGAIN 0]
    [1; 1; 1; 1; 1]).

(** The transport would block once, then the connection is reset. *)
Definition world_read_breaks : world :=
  world_of (mk_pending [] [] [] [] []
    [quiet CURLE_AGAIN 0;
     mk_curl_reply (CURLE_other 56) 0 (Some "Recv failure: Connection reset by peer")]
    [1; 1]).

(** The allocation fails. *)
Definition world_no_memory : world :=
  world_of (mk_pending [false] [4096] [] [] [] [] []).

(** A whole session, as a caller would run it: create an encrypted stream,
    connect, write, read, close, free.  The results of the five calls that
    have one, in order; just the factory's when it fails. *)
Definition session (host port : string) (out_buf out_len in_buf in_len : Z)
    : W (list Z) :=
  f <- git_curl_stream_new strtol32_dec host port 1 ;;
  match snd f with
  | None => ret [fst f]
  | Some st =>
    c <- curls_connect st ;;
    wr <- curls_write (snd c) out_buf out_len 0 ;;
    rd <- curls_read (snd wr) in_buf in_len ;;
    cl <- curls_close (snd rd) ;;
    curls_free (snd cl) ;;
    ret [fst f; fst c; fst wr; fst rd; fst cl]
  end.

(** The peer verifies, the socket is descriptor 5, the transport takes the
    16 bytes of the request at once and has 100 bytes to read. *)
Definition world_session : world :=
  world_of (mk_pending [true] [4096] [quiet CURLE_OK 0] [quiet CURLE_OK 5]
              [quiet CURLE_OK 16] [quiet CURLE_OK 100] [1; 1]).

(** ** Basic facts *)

Create HintDb primitives.

#[local] Hint Unfold run git__calloc curl_easy_init curl_easy_perform
  curl_easy_getinfo_lastsocket curl_easy_send curl_easy_recv select
  next_reply emit : primitives.

(** A primitive in a world whose next reply for it is given by [H], or whose
    replies for it have run out. *)
Ltac take_reply H :=
  autounfold with primitives; simpl; rewrite H; reflexivity.

Lemma CURLcode_eqb_eq (a b : CURLcode) : CURLcode_eqb a b = true <-> a = b.
Proof.
  destruct a, b; simpl; split; intros H; try congruence; try discriminate.
  - apply Pos.eqb_eq in H. congruence.
  - inversion H. apply Pos.eqb_refl.
Qed.

Lemma CURLcode_eqb_neq (a b : CURLcode) : CURLcode_eqb a b = false <-> a <> b.
Proof.
  rewrite <- CURLcode_eqb_eq. destruct (CURLcode_eqb a b); split; congruence.
Qed.

Lemma run_ret {A : Type} (a : A) (w : world) : run (ret a) w = Some (a, w).
Proof. reflexivity. Qed.

Lemma run_bind {A B : Type} (c : W A) (k : A -> W B) (w : world) :
  run (bind c k) w =
  match run c w with
  | Some (a, w') => run (k a) w'
  | None => None
  end.
Proof. reflexivity. Qed.

Lemma run_giterr_set (cls : git_error_t) (msg : string) (w : world) :
  run (giterr_set cls msg) w = Some (tt, failed cls msg w).
Proof. reflexivity. Qed.

Lemma run_seterr_curl (s : curl_stream) (w : world) :
  run (seterr_curl s) w =
  Some (-1, failed GITERR_NET ("curl error: " ++ curl_error s ++ newline) w).
Proof. reflexivity. Qed.

Lemma run_select (nfds : Z) (i o e : fd_set) (w : world) (r : Z) (q : list Z) :
  selects (env w) = r :: q ->
  run (select nfds i o e) w =
  Some (r, with_env (rest_selects (env w) q) (logged (Call_select nfds i o e) w)).
Proof.
  intros H. take_reply H.
Qed.

Lemma run_wait_for_ok (fd : Z) (reading : bool) (w : world) (r : Z) (q : list Z) :
  selects (env w) = r :: q -> 0 <= r ->
  run (wait_for fd reading) w =
  Some (0, with_env (rest_selects (env w) q) (logged (wait_call fd reading) w)).
Proof.
  intros H Hr. unfold wait_for. rewrite run_bind.
  rewrite (run_select _ _ _ _ _ _ _ H).
  destruct (Z.ltb_spec r 0); [lia|].
  unfold wait_call, FD_SET, FD_ZERO. destruct reading; reflexivity.
Qed.

Lemma run_wait_for_fail (fd : Z) (reading : bool) (w : world) (r : Z) (q : list Z) :
  selects (env w) = r :: q -> r < 0 ->
  run (wait_for fd reading) w =
  Some (-1, failed GITERR_OS "error in select"
              (with_env (rest_selects (env w) q) (logged (wait_call fd reading) w))).
Proof.
  intros H Hr. unfold wait_for. rewrite run_bind.
  rewrite (run_select _ _ _ _ _ _ _ H).
  destruct (Z.ltb_spec r 0); [|lia].
  unfold wait_call, FD_SET, FD_ZERO. destruct reading; reflexivity.
Qed.

Lemma run_perform (h : Z) (w : world) (r : curl_reply) (q : list curl_reply) :
  performs (env w) = r :: q ->
  run (curl_easy_perform h) w =
  Some (r, with_env (rest_performs (env w) q) (logged (Call_perform h) w)).
Proof.
  intros H. take_reply H.
Qed.

Lemma run_getinfo (h : Z) (w : world) (r : curl_reply) (q : list curl_reply) :
  getinfos (env w) = r :: q ->
  run (curl_easy_getinfo_lastsocket h) w =
  Some (r, with_env (rest_getinfos (env w) q) (logged (Call_getinfo_lastsocket h) w)).
Proof.
  intros H. take_reply H.
Qed.

Lemma run_send (h buf n : Z) (w : world) (r : curl_reply) (q : list curl_reply) :
  sends (env w) = r :: q ->
  run (curl_easy_send h buf n) w =
  Some (r, with_env (rest_sends (env w) q) (logged (Call_send h buf n) w)).
Proof.
  intros H. take_reply H.
Qed.

Lemma run_recv (h buf n : Z) (w : world) (r : curl_reply) (q : list curl_reply) :
  recvs (env w) = r :: q ->
  run (curl_easy_recv h buf n) w =
  Some (r, with_env (rest_recvs (env w) q) (logged (Call_recv h buf n) w)).
Proof.
  intros H. take_reply H.
Qed.

Lemma run_cleanup (h : Z) (w : world) :
  run (curl_easy_cleanup h) w = Some (tt, logged (Call_cleanup h) w).
Proof. reflexivity. Qed.

Lemma socket_errbuf_after (s : curl_stream) (r : curl_reply) :
  socket (errbuf_after s r) = socket s.
Proof. unfold errbuf_after. destruct (errtext r); reflexivity. Qed.

Lemma handle_errbuf_after (s : curl_stream) (r : curl_reply) :
  handle (errbuf_after s r) = handle s.
Proof. unfold errbuf_after. destruct (errtext r); reflexivity. Qed.

Lemma parent_errbuf_after (s : curl_stream) (r : curl_reply) :
  parent (errbuf_after s r) = parent s.
Proof. unfold errbuf_after. destruct (errtext r); reflexivity. Qed.

(** ** connect *)

(** What [curls_connect] does once [curl_easy_perform] has answered [r]. *)
Lemma connect_after_perform (s : curl_stream) (w : world) (r : curl_reply)
    (q : list curl_reply) :
  performs (env w) = r :: q ->
  run (curls_connect s) w =
  let s1 := errbuf_after s r in
  let w1 := with_env (rest_performs (env w) q) (logged (Call_perform (handle s)) w) in
  if negb (CURLcode_eqb (code r) CURLE_OK)
     && negb (CURLcode_eqb (code r) CURLE_PEER_FAILED_VERIFICATION)
  then Some (-1, s1, failed GITERR_NET ("curl error: " ++ curl_error s1 ++ newline) w1)
  else
    match run (curl_easy_getinfo_lastsocket (handle s1)) w1 with
    | None => None
    | Some (g, w2) =>
      let s2 := errbuf_after s1 g in
      if negb (CURLcode_eqb (code g) CURLE_OK)
      then Some (-1, s2, failed GITERR_NET ("curl error: " ++ curl_error s2 ++ newline) w2)
      else
        let s3 := set_socket s2 (int_of_long (out g)) in
        if truthy (encrypted (parent s3))
           && CURLcode_eqb (code r) CURLE_PEER_FAILED_VERIFICATION
        then Some (GIT_ECERTIFICATE, s3, w2)
        else Some (0, s3, w2)
    end.
Proof.
  intros H. unfold curls_connect. rewrite run_bind, (run_perform _ _ _ _ H).
  cbv zeta.
  destruct (negb (CURLcode_eqb (code r) CURLE_OK)
            && negb (CURLcode_eqb (code r) CURLE_PEER_FAILED_VERIFICATION)).
  - reflexivity.
  - rewrite run_bind.
    destruct (run (curl_easy_getinfo_lastsocket (handle (errbuf_after s r))) _)
      as [[g w2]|]; [|reflexivity].
    destruct (negb (CURLcode_eqb (code g) CURLE_OK)); [reflexivity|].
    destruct (CURLcode_eqb (code r) CURLE_PEER_FAILED_VERIFICATION);
      destruct (truthy _); reflexivity.
Qed.

Lemma int_of_long_small (z : Z) :
  - 2 ^ 31 <= z < 2 ^ 31 -> int_of_long z = z.
Proof.
  intros H. unfold int_of_long, INT_MODULUS.
  change (2 ^ 31) with 2147483648 in *. change (2 ^ 32) with 4294967296.
  destruct (Z.ltb_spec (z mod 4294967296) 2147483648);
    Z.div_mod_to_equations; lia.
Qed.

(** C1, as the code has it: when [curl_easy_perform] answers with a code that
    is neither success nor "peer certificate verification failed", connect
    fails with the generic network error and goes no further; when it answers
    "peer certificate verification failed" and the socket extraction that
    follows succeeds, connect returns the certificate error on an encrypted
    stream and success on one that is not; the certificate error is neither
    the generic failure nor success. *)
Theorem connect_perform_outcomes (s : curl_stream) (w : world) (r : curl_reply)
    (q : list curl_reply) :
  performs (env w) = r :: q ->
  (code r <> CURLE_OK -> code r <> CURLE_PEER_FAILED_VERIFICATION ->
   exists w',
     run (curls_connect s) w = Some (-1, errbuf_after s r, w')
     /\ giterr w' = net_error (errbuf_after s r)
     /\ trace w' = (trace w ++ [Call_perform (handle s)])%list)
  /\ (code r = CURLE_PEER_FAILED_VERIFICATION ->
      forall g q', getinfos (env w) = g :: q' -> code g = CURLE_OK ->
      exists s' w',
        run (curls_connect s) w =
          Some (if truthy (encrypted (parent s)) then GIT_ECERTIFICATE else 0, s', w')
        /\ giterr w' = giterr w)
  /\ GIT_ECERTIFICATE <> -1 /\ GIT_ECERTIFICATE <> 0.
Proof.
  intros H. rewrite (connect_after_perform _ _ _ _ H). cbv zeta.
  split; [|split; [|split; discriminate]].
  - intros Hok Hpfv.
    apply CURLcode_eqb_neq in Hok, Hpfv. rewrite Hok, Hpfv. simpl.
    eexists. split; [reflexivity|]. split; reflexivity.
  - intros Hpfv g q' Hg Hgok.
    rewrite (run_getinfo _ _ g q') by exact Hg.
    rewrite Hpfv, Hgok. simpl. rewrite !parent_errbuf_after.
    destruct (truthy (encrypted (parent s))); simpl;
      eexists; eexists; (split; [reflexivity|reflexivity]).
Qed.

(** On an encrypted stream whose peer does not verify, and with the socket
    to be had, connect returns the certificate error. *)
Lemma connect_perform_outcomes_witness :
  exists s' w',
    run (curls_connect (fresh_stream 1)) world_cert_failed =
      Some (GIT_ECERTIFICATE, s', w')
    /\ giterr w' = None.
Proof.
  exact (proj1 (proj2 (connect_perform_outcomes (fresh_stream 1) world_cert_failed
                  (mk_curl_reply CURLE_PEER_FAILED_VERIFICATION 0
                     (Some "SSL certificate problem"))
                  [] eq_refl))
           eq_refl (quiet CURLE_OK 5) [] eq_refl eq_refl).
Defined.

(** C1, as stated, fails: on an encrypted stream, [curl_easy_perform] answers
    "peer certificate verification failed", the socket extraction fails, and
    connect returns the generic failure with a network error, not the
    certificate error. *)
Lemma connect_cert_failure_counterexample :
  truthy (encrypted (parent (fresh_stream 1))) = true
  /\ map code (performs (env world_cert_then_no_socket))
     = [CURLE_PEER_FAILED_VERIFICATION]
  /\ exists s' w',
       run (curls_connect (fresh_stream 1)) world_cert_then_no_socket
         = Some (-1, s', w')
       /\ giterr w' = Some (GITERR_NET, "curl error: no socket" ++ newline)
       /\ -1 <> GIT_ECERTIFICATE.
Proof.
  split; [reflexivity|]. split; [reflexivity|].
  eexists. eexists. split; [vm_compute; reflexivity|].
  split; [reflexivity|discriminate].
Qed.

(** C8: when [curl_easy_perform] answers success or "peer certificate
    verification failed", connect goes on to ask the handle for its socket.
    If that succeeds the descriptor is stored in the stream before connect
    returns, with the certificate error as much as with success; if it fails
    connect returns the generic failure with a network error, whatever the
    perform step said. *)
Theorem connect_extracts_socket (s : curl_stream) (w : world)
    (r g : curl_reply) (q q' : list curl_reply) :
  performs (env w) = r :: q ->
  code r = CURLE_OK \/ code r = CURLE_PEER_FAILED_VERIFICATION ->
  getinfos (env w) = g :: q' ->
  exists ret s' w',
    run (curls_connect s) w = Some (ret, s', w')
    /\ trace w' = (trace w ++ [Call_perform (handle s); Call_getinfo_lastsocket (handle s)])%list
    /\ (code g = CURLE_OK ->
        socket s' = int_of_long (out g)
        /\ (- 2 ^ 31 <= out g < 2 ^ 31 -> socket s' = out g)
        /\ ret = (if truthy (encrypted (parent s))
                     && CURLcode_eqb (code r) CURLE_PEER_FAILED_VERIFICATION
                  then GIT_ECERTIFICATE else 0)
        /\ giterr w' = giterr w)
    /\ (code g <> CURLE_OK ->
        ret = -1 /\ giterr w' = net_error s' /\ socket s' = socket s).
Proof.
  intros H Hr Hg. rewrite (connect_after_perform _ _ _ _ H). cbv zeta.
  assert (Hgo : negb (CURLcode_eqb (code r) CURLE_OK)
                && negb (CURLcode_eqb (code r) CURLE_PEER_FAILED_VERIFICATION) = false).
  { destruct Hr as [Hr|Hr]; rewrite Hr; reflexivity. }
  rewrite Hgo. rewrite (run_getinfo _ _ g q') by exact Hg.
  rewrite handle_errbuf_after.
  destruct (CURLcode_eqb (code g) CURLE_OK) eqn:Eg; simpl.
  - apply CURLcode_eqb_eq in Eg.
    rewrite !parent_errbuf_after.
    destruct (truthy (encrypted (parent s))
              && CURLcode_eqb (code r) CURLE_PEER_FAILED_VERIFICATION);
      do 3 eexists; (split; [reflexivity|]);
      (split; [simpl; rewrite <- app_assoc; reflexivity|]);
      (split; [|congruence]); intros _; simpl;
      (split; [reflexivity|]);
      (split; [intros Hb; apply int_of_long_small; exact Hb|]);
      split; reflexivity.
  - apply CURLcode_eqb_neq in Eg.
    do 3 eexists. split; [reflexivity|].
    split; [simpl; rewrite <- app_assoc; reflexivity|].
    split; [congruence|]. intros _.
    split; [reflexivity|]. split; [reflexivity|].
    rewrite !socket_errbuf_after. reflexivity.
Qed.

(** The same run: descriptor 5 is in the stream when connect returns the
    certificate error. *)
Lemma connect_extracts_socket_witness :
  exists ret s' w',
    run (curls_connect (fresh_stream 1)) world_cert_failed = Some (ret, s', w')
    /\ socket s' = 5 /\ ret = GIT_ECERTIFICATE.
Proof.
  destruct (connect_extracts_socket (fresh_stream 1) world_cert_failed
              (mk_curl_reply CURLE_PEER_FAILED_VERIFICATION 0
                 (Some "SSL certificate problem"))
              (quiet CURLE_OK 5) [] [] eq_refl (or_intror eq_refl) eq_refl)
    as (ret & s' & w' & Hrun & _ & Hok & _).
  exists ret, s', w'. split; [exact Hrun|].
  destruct (Hok eq_refl) as (_ & Hsock & Hret & _).
  split; [apply Hsock; simpl; lia | exact Hret].
Defined.

(** ** certificate *)

(** C4: [curls_certificate] returns 0 on every stream, and the record it
    hands out and leaves in the stream is tagged X.509 with a null pointer
    and length zero; so it does on the stream a connect left behind when the
    peer's certificate did not verify. *)
Theorem certificate_always_succeeds :
  (forall s : curl_stream,
     curls_certificate s =
       (0, mk_git_cert_x509 GIT_CERT_X509 NULL 0,
        set_cert_info s (mk_git_cert_x509 GIT_CERT_X509 NULL 0)))
  /\ (forall (s : curl_stream) (w : world) (s' : curl_stream) (w' : world),
        run (curls_connect s) w = Some (GIT_ECERTIFICATE, s', w') ->
        exists cert s'',
          curls_certificate s' = (0, cert, s'')
          /\ cert_type cert = GIT_CERT_X509
          /\ cert_data cert = NULL
          /\ cert_len cert = 0
          /\ cert_info s'' = cert).
Proof.
  assert (H : forall s : curl_stream,
             curls_certificate s =
               (0, mk_git_cert_x509 GIT_CERT_X509 NULL 0,
                set_cert_info s (mk_git_cert_x509 GIT_CERT_X509 NULL 0))).
  { intros s. reflexivity. }
  split; [exact H|].
  intros s w s' w' _. rewrite H.
  do 2 eexists. repeat split.
Qed.

(** The certificate of the stream that run leaves behind. *)
Lemma certificate_always_succeeds_witness :
  exists cert s'',
    curls_certificate stream_cert_failed = (0, cert, s'')
    /\ cert_type cert = GIT_CERT_X509
    /\ cert_data cert = NULL
    /\ cert_len cert = 0
    /\ cert_info s'' = cert.
Proof.
  exact (proj2 certificate_always_succeeds (fresh_stream 1) world_cert_failed
           stream_cert_failed world_after_cert_failed eq_refl).
Defined.

(** ** close *)

Lemma truthy_false_iff (z : Z) : truthy z = false <-> z = 0.
Proof.
  unfold truthy. destruct (Z.eqb_spec z 0); simpl; split; congruence.
Qed.

(** C5: on a stream whose handle is null, close returns 0 and changes neither
    the stream nor the world; on any other stream it releases the handle,
    sets it to null and the socket to 0, and returns 0.  So a close after a
    close returns 0 both times, the second leaving everything as it was. *)
Theorem close_idempotent :
  (forall (s : curl_stream) (w : world),
     handle s = NULL -> run (curls_close s) w = Some (0, s, w))
  /\ (forall (s : curl_stream) (w : world),
        handle s <> NULL ->
        exists s',
          run (curls_close s) w = Some (0, s', logged (Call_cleanup (handle s)) w)
          /\ s' = set_socket (set_handle s NULL) 0
          /\ handle s' = NULL /\ socket s' = 0)
  /\ (forall (s : curl_stream) (w : world),
        exists s1 w1,
          run (curls_close s) w = Some (0, s1, w1)
          /\ run (curls_close s1) w1 = Some (0, s1, w1)).
Proof.
  assert (Hnull : forall (s : curl_stream) (w : world),
             handle s = NULL -> run (curls_close s) w = Some (0, s, w)).
  { intros s w H. unfold curls_close. rewrite H. reflexivity. }
  assert (Hopen : forall (s : curl_stream) (w : world),
             handle s <> NULL ->
             run (curls_close s) w =
               Some (0, set_socket (set_handle s NULL) 0,
                     logged (Call_cleanup (handle s)) w)).
  { intros s w H. unfold curls_close.
    destruct (truthy (handle s)) eqn:E.
    - reflexivity.
    - apply truthy_false_iff in E. contradiction. }
  split; [exact Hnull|]. split.
  - intros s w H. eexists. split; [apply Hopen; exact H|].
    repeat split.
  - intros s w. destruct (Z.eq_dec (handle s) NULL) as [E|E].
    + exists s, w. split; apply Hnull; exact E.
    + do 2 eexists. split; [apply Hopen; exact E|].
      apply Hnull. reflexivity.
Qed.

(** Closing a stream without a handle, and one with its handle at 4096. *)
Lemma close_idempotent_witness :
  run (curls_close (set_handle (fresh_stream 1) NULL)) (world_of no_replies)
    = Some (0, set_handle (fresh_stream 1) NULL, world_of no_replies)
  /\ exists s',
       run (curls_close stream_cert_failed) world_after_cert_failed
         = Some (0, s', logged (Call_cleanup 4096) world_after_cert_failed)
       /\ s' = set_socket (set_handle stream_cert_failed NULL) 0
       /\ handle s' = NULL /\ socket s' = 0.
Proof.
  split.
  - apply (proj1 close_idempotent). reflexivity.
  - apply (proj1 (proj2 close_idempotent) stream_cert_failed world_after_cert_failed).
    discriminate.
Defined.

(** ** write: the flags *)

(** C10: [curls_write] does not look at its [flags]: with two values of it,
    and the same stream, buffer, length and world, it returns the same
    value and leaves the same stream and the same world. *)
Theorem write_ignores_flags (s : curl_stream) (data len flags1 flags2 : Z)
    (w : world) :
  run (curls_write s data len flags1) w = run (curls_write s data len flags2) w.
Proof. reflexivity. Qed.

(** ** The readiness wait inside the loops *)

Lemma run_wait_for_blocked (fd : Z) (reading : bool) (w : world) :
  selects (env w) = [] -> run (wait_for fd reading) w = None.
Proof.
  intros H. unfold wait_for. take_reply H.
Qed.

(** One round of the read loop in which the wait succeeds and
    [curl_easy_recv] answers [g]. *)
Lemma read_loop_round (n : nat) (s : curl_stream) (data len : Z) (w : world)
    (r : Z) (q : list Z) (g : curl_reply) (q' : list curl_reply) :
  selects (env w) = r :: q -> 0 <= r -> recvs (env w) = g :: q' ->
  run (read_loop (S n) s data len) w =
  let s1 := errbuf_after s g in
  let w1 := with_env (rest_recvs (rest_selects (env w) q) q')
              (logged (Call_recv (handle s) data len)
                 (logged (wait_call (socket s) true) w)) in
  if CURLcode_eqb (code g) CURLE_AGAIN
  then run (read_loop n s1 data len) w1
  else
    if negb (CURLcode_eqb (code g) CURLE_OK)
    then Some (-1, s1, failed GITERR_NET ("curl error: " ++ curl_error s1 ++ newline) w1)
    else Some (ssize_of_size (to_size (out g)), s1, w1).
Proof.
  intros Hs Hr Hg. cbn [read_loop]. rewrite run_bind.
  rewrite (run_wait_for_ok _ _ _ _ _ Hs Hr).
  change (0 <? 0) with false. cbv iota. rewrite run_bind.
  rewrite (run_recv _ _ _ _ g q') by exact Hg.
  cbv zeta.
  destruct (CURLcode_eqb (code g) CURLE_AGAIN); [reflexivity|].
  destruct (negb (CURLcode_eqb (code g) CURLE_OK)); reflexivity.
Qed.

(** One round of the write loop in which the wait succeeds and
    [curl_easy_send] answers [g]. *)
Lemma write_loop_round (n : nat) (s : curl_stream) (data len off : Z) (w : world)
    (r : Z) (q : list Z) (g : curl_reply) (q' : list curl_reply) :
  selects (env w) = r :: q -> 0 <= r -> sends (env w) = g :: q' ->
  run (write_loop (S n) s data len off) w =
  let s1 := errbuf_after s g in
  let w1 := with_env (rest_sends (rest_selects (env w) q) q')
              (logged (Call_send (handle s) (data + off) (size_sub len off))
                 (logged (wait_call (socket s) false) w)) in
  let off1 := off + accepted g in
  let off1 := if CURLcode_eqb (code g) CURLE_OK then to_size off1 else off in
  if (CURLcode_eqb (code g) CURLE_OK || CURLcode_eqb (code g) CURLE_AGAIN)
     && (off1 <? len)
  then run (write_loop n s1 data len off1) w1
  else
    if negb (CURLcode_eqb (code g) CURLE_OK)
    then Some (-1, s1, failed GITERR_NET ("curl error: " ++ curl_error s1 ++ newline) w1)
    else Some (ssize_of_size len, s1, w1).
Proof.
  intros Hs Hr Hg. cbn [write_loop]. rewrite run_bind.
  rewrite (run_wait_for_ok _ _ _ _ _ Hs Hr).
  change (0 <? 0) with false. cbv iota. rewrite run_bind.
  rewrite (run_send _ _ _ _ g q') by exact Hg.
  cbv zeta. unfold accepted, size_add.
  destruct (CURLcode_eqb (code g) CURLE_OK); simpl orb.
  - destruct (_ && _); reflexivity.
  - destruct (_ && _); reflexivity.
Qed.

(** A round in which the wait fails ends the loop there. *)
Lemma read_loop_wait_fails (n : nat) (s : curl_stream) (data len : Z) (w : world)
    (r : Z) (q : list Z) :
  selects (env w) = r :: q -> r < 0 ->
  run (read_loop (S n) s data len) w =
  Some (-1, s, failed GITERR_OS "error in select"
                 (with_env (rest_selects (env w) q)
                    (logged (wait_call (socket s) true) w))).
Proof.
  intros Hs Hr. cbn [read_loop]. rewrite run_bind.
  rewrite (run_wait_for_fail _ _ _ _ _ Hs Hr). reflexivity.
Qed.

Lemma write_loop_wait_fails (n : nat) (s : curl_stream) (data len off : Z)
    (w : world) (r : Z) (q : list Z) :
  selects (env w) = r :: q -> r < 0 ->
  run (write_loop (S n) s data len off) w =
  Some (-1, s, failed GITERR_OS "error in select"
                 (with_env (rest_selects (env w) q)
                    (logged (wait_call (socket s) false) w))).
Proof.
  intros Hs Hr. cbn [write_loop]. rewrite run_bind.
  rewrite (run_wait_for_fail _ _ _ _ _ Hs Hr). reflexivity.
Qed.

Lemma run_curls_read (s : curl_stream) (data len : Z) (w : world) :
  run (curls_read s data len) w =
  run (read_loop (S (List.length (selects (env w)))) s data len) w.
Proof. reflexivity. Qed.

Lemma run_curls_write (s : curl_stream) (data len flags : Z) (w : world) :
  run (curls_write s data len flags) w =
  run (write_loop (S (List.length (selects (env w)))) s data len 0) w.
Proof. reflexivity. Qed.

(** C9: when [select] fails in a round of the read loop or of the write loop,
    whichever round it is, the call returns -1 there with the OS error of
    [wait_for] recorded; the only call of that round is the [select], and no
    reply of [curl_easy_recv] or [curl_easy_send] is taken. *)
Theorem wait_failure_is_fatal (s : curl_stream) (w : world)
    (data len off flags : Z) (n : nat) (r : Z) (q : list Z) :
  selects (env w) = r :: q -> r < 0 ->
  (exists w',
     run (curls_read s data len) w = Some (-1, s, w')
     /\ run (read_loop (S n) s data len) w = Some (-1, s, w')
     /\ giterr w' = select_error
     /\ trace w' = (trace w ++ [wait_call (socket s) true])%list
     /\ recvs (env w') = recvs (env w))
  /\ (exists w',
        run (curls_write s data len flags) w = Some (-1, s, w')
        /\ run (write_loop (S n) s data len off) w = Some (-1, s, w')
        /\ giterr w' = select_error
        /\ trace w' = (trace w ++ [wait_call (socket s) false])%list
        /\ sends (env w') = sends (env w)).
Proof.
  intros Hs Hr. split.
  - eexists. rewrite run_curls_read.
    rewrite !(read_loop_wait_fails _ _ _ _ _ _ _ Hs Hr).
    repeat split.
  - eexists. rewrite run_curls_write.
    rewrite !(write_loop_wait_fails _ _ _ _ _ _ _ _ Hs Hr).
    repeat split.
Qed.

(** [select] returns -1 while the transport has data, and while it would
    take all there is to write. *)
Lemma wait_failure_is_fatal_witness :
  (exists w',
     run (curls_read stream_cert_failed 8192 100)
         (world_of (mk_pending [] [] [] [] [] [quiet CURLE_OK 7] [-1]))
       = Some (-1, stream_cert_failed, w')
     /\ giterr w' = select_error
     /\ recvs (env w') = [quiet CURLE_OK 7])
  /\ (exists w',
        run (curls_write stream_cert_failed 8192 100 0)
            (world_of (mk_pending [] [] [] [] [quiet CURLE_OK 100] [] [-1]))
          = Some (-1, stream_cert_failed, w')
        /\ giterr w' = select_error
        /\ sends (env w') = [quiet CURLE_OK 100]).
Proof.
  split.
  - destruct (proj1 (wait_failure_is_fatal stream_cert_failed
                (world_of (mk_pending [] [] [] [] [] [quiet CURLE_OK 7] [-1]))
                8192 100 0 0 O (-1) [] eq_refl eq_refl))
      as (w' & H1 & _ & H2 & _ & H3).
    exists w'. repeat split; assumption.
  - destruct (proj2 (wait_failure_is_fatal stream_cert_failed
                (world_of (mk_pending [] [] [] [] [quiet CURLE_OK 100] [] [-1]))
                8192 100 0 0 O (-1) [] eq_refl eq_refl))
      as (w' & H1 & _ & H2 & _ & H3).
    exists w'. repeat split; assumption.
Defined.

(** ** read *)

Lemma read_rounds_errbuf_after (k : nat) (s : curl_stream) (g : curl_reply)
    (data len : Z) :
  read_rounds k (errbuf_after s g) data len = read_rounds k s data len.
Proof.
  induction k as [|k IH]; simpl; [reflexivity|].
  rewrite socket_errbuf_after, handle_errbuf_after, IH. reflexivity.
Qed.

(** The read loop, entered with enough rounds for the replies of [select]
    that are left, goes through the would-block answers and stops at the
    first other one. *)
Lemma read_loop_retries (data len : Z) (fin : curl_reply) (rest : list curl_reply)
    (rest' : list Z) (agains : list curl_reply) :
  forall (n : nat) (s : curl_stream) (w : world) (sel : list Z),
  recvs (env w) = (agains ++ fin :: rest)%list ->
  Forall (fun r => code r = CURLE_AGAIN) agains ->
  code fin <> CURLE_AGAIN ->
  selects (env w) = (sel ++ rest')%list ->
  List.length sel = S (List.length agains) ->
  Forall (fun r => 0 <= r) sel ->
  (List.length (selects (env w)) < n)%nat ->
  exists ret w',
    run (read_loop n s data len) w
      = Some (ret, errbuf_after_all s (agains ++ [fin]), w')
    /\ trace w' = (trace w ++ read_rounds (S (List.length agains)) s data len)%list
    /\ recvs (env w') = rest
    /\ selects (env w') = rest'
    /\ (code fin = CURLE_OK ->
        ret = ssize_of_size (to_size (out fin)) /\ giterr w' = giterr w)
    /\ (code fin <> CURLE_OK ->
        ret = -1 /\ giterr w' = net_error (errbuf_after_all s (agains ++ [fin]))).
Proof.
  induction agains as [|a agains IH];
    intros n s w sel Hrecv Hag Hfin Hsel Hlen Hpos Hn.
  - destruct sel as [|r [|r' sel]]; try discriminate Hlen.
    simpl in Hsel, Hrecv. inversion Hpos as [|? ? Hr _]; subst.
    rewrite Hsel in Hn. destruct n as [|n]; [simpl in Hn; lia|].
    rewrite (read_loop_round _ _ _ _ _ _ _ _ _ Hsel Hr Hrecv). cbv zeta.
    apply CURLcode_eqb_neq in Hfin. rewrite Hfin.
    destruct (CURLcode_eqb (code fin) CURLE_OK) eqn:E; simpl negb; cbv iota.
    + apply CURLcode_eqb_eq in E. do 2 eexists. split; [reflexivity|].
      split; [simpl; rewrite <- app_assoc; reflexivity|].
      split; [reflexivity|]. split; [reflexivity|].
      split; [intros _; split; reflexivity | congruence].
    + apply CURLcode_eqb_neq in E. do 2 eexists. split; [reflexivity|].
      split; [simpl; rewrite <- app_assoc; reflexivity|].
      split; [reflexivity|]. split; [reflexivity|].
      split; [congruence | intros _; split; reflexivity].
  - destruct sel as [|r sel]; [discriminate Hlen|].
    simpl in Hsel, Hrecv, Hlen. inversion Hpos as [|? ? Hr Hpos']; subst.
    inversion Hag as [|? ? Ha Hag']; subst.
    rewrite Hsel in Hn. destruct n as [|n]; [simpl in Hn; lia|].
    rewrite (read_loop_round _ _ _ _ _ _ _ _ _ Hsel Hr Hrecv). cbv zeta.
    rewrite Ha. cbn [CURLcode_eqb]. cbv iota.
    destruct (IH n (errbuf_after s a)
                (with_env (rest_recvs (rest_selects (env w) (sel ++ rest')%list)
                             (agains ++ fin :: rest)%list)
                   (logged (Call_recv (handle s) data len)
                      (logged (wait_call (socket s) true) w)))
                sel)
      as (ret & w' & Hrun & Htr & Hrest & Hrest' & Hok & Hko);
      try assumption; try reflexivity.
    + injection Hlen as Hlen. exact Hlen.
    + simpl. simpl in Hn. lia.
    + exists ret, w'. split; [exact Hrun|].
      split.
      { rewrite Htr, read_rounds_errbuf_after. simpl.
        rewrite <- !app_assoc. reflexivity. }
      split; [exact Hrest|]. split; [exact Hrest'|].
      split; [exact Hok | exact Hko].
Qed.

Lemma to_size_bounds (z : Z) : 0 <= to_size z < SIZE_MODULUS.
Proof. unfold to_size. apply Z.mod_pos_bound. reflexivity. Qed.

Lemma to_size_small (z : Z) : 0 <= z < SIZE_MODULUS -> to_size z = z.
Proof. intros H. unfold to_size. apply Z.mod_small. exact H. Qed.

Lemma ssize_of_size_small (z : Z) : 0 <= z <= SSIZE_MAX -> ssize_of_size z = z.
Proof.
  intros H. unfold ssize_of_size. cbv zeta.
  rewrite to_size_small.
  - destruct (Z.leb_spec z SSIZE_MAX); [reflexivity|lia].
  - unfold SSIZE_MAX, SIZE_MODULUS in *. lia.
Qed.

Lemma ssize_of_size_large (z : Z) :
  SSIZE_MAX < z < SIZE_MODULUS -> ssize_of_size z = z - SIZE_MODULUS.
Proof.
  intros H. unfold ssize_of_size. cbv zeta.
  rewrite to_size_small.
  - destruct (Z.leb_spec z SSIZE_MAX); [lia|reflexivity].
  - unfold SSIZE_MAX, SIZE_MODULUS in *. lia.
Qed.

Lemma ssize_of_size_to_size (z : Z) : ssize_of_size (to_size z) = ssize_of_size z.
Proof.
  unfold ssize_of_size. cbv zeta.
  rewrite (to_size_small (to_size z)) by apply to_size_bounds. reflexivity.
Qed.

(** C3: when [curl_easy_recv] would block some number of times and then
    answers something else, and the waits in between succeed, [curls_read]
    goes round once per answer (a wait, then a receive) without returning,
    and returns at the first answer that is not would-block, taking no reply
    beyond it: if that answer is success with N bytes it returns N, be N
    short of the length asked for or zero, and records no error; any other
    answer makes it return -1 with a network error. *)
Theorem read_retries_then_returns (s : curl_stream) (w : world) (data len : Z)
    (agains : list curl_reply) (fin : curl_reply) (rest : list curl_reply)
    (sel rest' : list Z) :
  recvs (env w) = (agains ++ fin :: rest)%list ->
  Forall (fun r => code r = CURLE_AGAIN) agains ->
  code fin <> CURLE_AGAIN ->
  selects (env w) = (sel ++ rest')%list ->
  List.length sel = S (List.length agains) ->
  Forall (fun r => 0 <= r) sel ->
  exists ret w',
    run (curls_read s data len) w
      = Some (ret, errbuf_after_all s (agains ++ [fin]), w')
    /\ trace w' = (trace w ++ read_rounds (S (List.length agains)) s data len)%list
    /\ recvs (env w') = rest
    /\ selects (env w') = rest'
    /\ (code fin = CURLE_OK ->
        ret = ssize_of_size (out fin)
        /\ (0 <= out fin <= SSIZE_MAX -> ret = out fin)
        /\ giterr w' = giterr w)
    /\ (code fin <> CURLE_OK ->
        ret = -1 /\ giterr w' = net_error (errbuf_after_all s (agains ++ [fin]))).
Proof.
  intros Hrecv Hag Hfin Hsel Hlen Hpos. rewrite run_curls_read.
  destruct (read_loop_retries data len fin rest rest' agains
              (S (List.length (selects (env w)))) s w sel
              Hrecv Hag Hfin Hsel Hlen Hpos (Nat.lt_succ_diag_r _))
    as (ret & w' & Hrun & Htr & Hrest & Hrest' & Hok & Hko).
  exists ret, w'. split; [exact Hrun|]. split; [exact Htr|].
  split; [exact Hrest|]. split; [exact Hrest'|]. split; [|exact Hko].
  intros E. destruct (Hok E) as [Hret Herr].
  rewrite ssize_of_size_to_size in Hret.
  split; [exact Hret|]. split; [|exact Herr].
  intros Hb. rewrite Hret. apply ssize_of_size_small. exact Hb.
Qed.

(** Two would-block answers, then 3 bytes of the 10 asked for: three rounds,
    six calls, and the reply after that is still to come. *)
Lemma read_retries_then_returns_witness :
  exists s' w',
    run (curls_read stream_cert_failed 8192 10) world_read_after_two_retries
      = Some (3, s', w')
    /\ recvs (env w') = [quiet CURLE_OK 9]
    /\ List.length (trace w') = 6%nat.
Proof.
  destruct (read_retries_then_returns stream_cert_failed
              world_read_after_two_retries 8192 10
              [quiet CURLE_AGAIN 0; quiet CURLE_AGAIN 0] (quiet CURLE_OK 3)
              [quiet CURLE_OK 9] [1; 1; 1] [1])
    as (ret & w' & Hrun & Htr & Hrest & _ & Hok & _).
  - reflexivity.
  - repeat constructor.
  - discriminate.
  - reflexivity.
  - reflexivity.
  - repeat constructor; discriminate.
  - destruct (Hok eq_refl) as (_ & Hret & _).
    rewrite (Hret ltac:(simpl; unfold SSIZE_MAX; lia)) in Hrun.
    do 2 eexists. split; [exact Hrun|]. split; [exact Hrest|].
    rewrite Htr. reflexivity.
Defined.

(** ** write *)

Lemma run_send_blocked (h buf n : Z) (w : world) :
  sends (env w) = [] -> run (curl_easy_send h buf n) w = None.
Proof.
  intros H. take_reply H.
Qed.

Lemma accepted_nonneg (r : curl_reply) : 0 <= accepted r.
Proof.
  unfold accepted. destruct (CURLcode_eqb (code r) CURLE_OK); [|lia].
  apply to_size_bounds.
Qed.

Lemma total_accepted_nonneg (l : list curl_reply) : 0 <= total_accepted l.
Proof.
  induction l as [|r l IH]; simpl; [lia|].
  pose proof (accepted_nonneg r). lia.
Qed.

(** Whatever the transport and [select] answer, the write loop returns the
    whole length or -1 with an error recorded. *)
Lemma write_loop_result (data len : Z) (n : nat) :
  forall (s : curl_stream) (off : Z) (w : world) (ret : Z) (s' : curl_stream)
         (w' : world),
  run (write_loop n s data len off) w = Some (ret, s', w') ->
  (ret = ssize_of_size len /\ giterr w' = giterr w)
  \/ (ret = -1 /\ (giterr w' = net_error s' \/ giterr w' = select_error)).
Proof.
  induction n as [|n IH]; intros s off w ret s' w' H; [discriminate H|].
  destruct (selects (env w)) as [|r q] eqn:Hs.
  { cbn [write_loop] in H. rewrite run_bind in H.
    rewrite (run_wait_for_blocked _ _ _ Hs) in H. discriminate H. }
  destruct (Z.lt_ge_cases r 0) as [Hr|Hr].
  { rewrite (write_loop_wait_fails _ _ _ _ _ _ _ _ Hs Hr) in H.
    inversion H; subst. right. split; [reflexivity|]. right. reflexivity. }
  destruct (sends (env w)) as [|g q'] eqn:Hg.
  { cbn [write_loop] in H. rewrite run_bind in H.
    rewrite (run_wait_for_ok _ _ _ _ _ Hs Hr) in H.
    change (0 <? 0) with false in H. cbv iota in H. rewrite run_bind in H.
    rewrite run_send_blocked in H by exact Hg. discriminate H. }
  rewrite (write_loop_round _ _ _ _ _ _ _ _ _ _ Hs Hr Hg) in H. cbv zeta in H.
  destruct (_ && _) in H.
  - apply IH in H. exact H.
  - destruct (negb (CURLcode_eqb (code g) CURLE_OK)) in H; inversion H; subst.
    + right. split; [reflexivity|]. left. reflexivity.
    + left. split; reflexivity.
Qed.

(** The write loop, entered with enough rounds for the replies of [select]
    that are left, gets through a transport that would block or takes a
    chunk that is not empty, until the last chunk completes the length. *)
Lemma write_loop_delivers (data len : Z) (fin : curl_reply)
    (rest : list curl_reply) (rest' : list Z) (pre : list curl_reply) :
  forall (n : nat) (s : curl_stream) (w : world) (sel : list Z) (off : Z),
  0 <= off -> len < SIZE_MODULUS ->
  sends (env w) = (pre ++ fin :: rest)%list ->
  Forall chunk_or_again pre ->
  code fin = CURLE_OK ->
  off + total_accepted pre + to_size (out fin) = len ->
  pre = [] \/ off + total_accepted pre < len ->
  selects (env w) = (sel ++ rest')%list ->
  List.length sel = S (List.length pre) ->
  Forall (fun r => 0 <= r) sel ->
  (List.length (selects (env w)) < n)%nat ->
  exists w',
    run (write_loop n s data len off) w
      = Some (ssize_of_size len, errbuf_after_all s (pre ++ [fin]), w')
    /\ giterr w' = giterr w
    /\ sends (env w') = rest
    /\ selects (env w') = rest'.
Proof.
  induction pre as [|a pre IH];
    intros n s w sel off Hoff Hlt Hsend Hpre Hfin Hsum Hmore Hsel Hlen Hpos Hn.
  - destruct sel as [|r [|r' sel]]; try discriminate Hlen.
    simpl in Hsel, Hsend, Hsum. pose proof (Forall_inv Hpos) as Hr. simpl in Hr.
    rewrite Hsel in Hn. destruct n as [|n]; [simpl in Hn; lia|].
    rewrite (write_loop_round _ _ _ _ _ _ _ _ _ _ Hsel Hr Hsend). cbv zeta.
    unfold accepted. rewrite Hfin. cbn [CURLcode_eqb orb negb].
    pose proof (to_size_bounds (out fin)) as Hb.
    rewrite to_size_small by lia.
    replace (off + to_size (out fin)) with len by lia.
    rewrite Z.ltb_irrefl. cbn [andb]. cbv iota.
    eexists. split; [reflexivity|]. repeat split.
  - destruct sel as [|r sel]; [discriminate Hlen|].
    simpl in Hsel, Hsend, Hlen, Hsum.
    pose proof (Forall_inv Hpos) as Hr. simpl in Hr.
    pose proof (Forall_inv_tail Hpos) as Hpos'.
    pose proof (Forall_inv Hpre) as Ha.
    pose proof (Forall_inv_tail Hpre) as Hpre'.
    destruct Hmore as [Hmore|Hmore]; [discriminate Hmore|]. simpl in Hmore.
    rewrite Hsel in Hn. destruct n as [|n]; [simpl in Hn; lia|].
    rewrite (write_loop_round _ _ _ _ _ _ _ _ _ _ Hsel Hr Hsend). cbv zeta.
    pose proof (total_accepted_nonneg pre) as Htot.
    pose proof (accepted_nonneg a) as Hacc.
    pose proof (to_size_bounds (out fin)) as Hb.
    assert (Hcont :
      (CURLcode_eqb (code a) CURLE_OK || CURLcode_eqb (code a) CURLE_AGAIN)
      && ((if CURLcode_eqb (code a) CURLE_OK
           then to_size (off + accepted a) else off) <? len) = true
      /\ (if CURLcode_eqb (code a) CURLE_OK
          then to_size (off + accepted a) else off) = off + accepted a).
    { destruct Ha as [Ha|[Ha Hnz]]; unfold accepted in *; rewrite Ha in *;
        cbn [CURLcode_eqb orb andb] in *.
      - split; [apply Z.ltb_lt; lia | lia].
      - rewrite to_size_small by lia. split; [apply Z.ltb_lt; lia | reflexivity]. }
    destruct Hcont as [Hcont Hoff1]. rewrite Hcont, Hoff1.
    destruct (IH n (errbuf_after s a)
                (with_env (rest_sends (rest_selects (env w) (sel ++ rest')%list)
                             (pre ++ fin :: rest)%list)
                   (logged (Call_send (handle s) (data + off) (size_sub len off))
                      (logged (wait_call (socket s) false) w)))
                sel (off + accepted a))
      as (w' & Hrun & Herr & Hrest & Hrest');
      [ lia | exact Hlt | reflexivity | exact Hpre' | exact Hfin | lia
      | right; lia | reflexivity | lia | exact Hpos' | simpl in *; lia | ].
    exists w'. split; [exact Hrun|]. split; [exact Herr|].
    split; [exact Hrest | exact Hrest'].
Qed.

(** C2: for a length that is a [size_t], whenever [curls_write] returns, it
    returns the whole length or -1 with a network error or the OS error of
    the wait recorded, so a return that is not negative is the length and
    none lies strictly between 0 and the length; and it does return the
    length when the transport would block or takes a chunk that is not
    empty, reply after reply, until a last chunk completes the length, the
    waits in between succeeding. *)
Theorem write_all_or_error (s : curl_stream) (w : world) (data len flags : Z) :
  0 <= len < SIZE_MODULUS ->
  (forall (pre : list curl_reply) (fin : curl_reply) (rest : list curl_reply)
          (sel rest' : list Z),
     sends (env w) = (pre ++ fin :: rest)%list ->
     Forall chunk_or_again pre ->
     code fin = CURLE_OK ->
     total_accepted pre + to_size (out fin) = len ->
     pre = [] \/ total_accepted pre < len ->
     selects (env w) = (sel ++ rest')%list ->
     List.length sel = S (List.length pre) ->
     Forall (fun r => 0 <= r) sel ->
     exists ret w',
       run (curls_write s data len flags) w
         = Some (ret, errbuf_after_all s (pre ++ [fin]), w')
       /\ ret = ssize_of_size len
       /\ (len <= SSIZE_MAX -> ret = len)
       /\ giterr w' = giterr w
       /\ sends (env w') = rest
       /\ selects (env w') = rest')
  /\ (forall (ret : Z) (s' : curl_stream) (w' : world),
        run (curls_write s data len flags) w = Some (ret, s', w') ->
        ((ret = ssize_of_size len /\ giterr w' = giterr w)
         \/ (ret = -1 /\ (giterr w' = net_error s' \/ giterr w' = select_error)))
        /\ (0 <= ret -> ret = len)
        /\ ~ (0 < ret < len)).
Proof.
  intros Hlen. split.
  - intros pre fin rest sel rest' Hsend Hpre Hfin Hsum Hmore Hsel Hl Hpos.
    rewrite run_curls_write.
    destruct (write_loop_delivers data len fin rest rest' pre
                (S (List.length (selects (env w)))) s w sel 0)
      as (w' & Hrun & Herr & Hrest & Hrest');
      [ lia | lia | exact Hsend | exact Hpre | exact Hfin | lia
      | destruct Hmore; [left; assumption | right; lia]
      | exact Hsel | exact Hl | exact Hpos | apply Nat.lt_succ_diag_r | ].
    exists (ssize_of_size len), w'. split; [exact Hrun|].
    split; [reflexivity|]. split.
    + intros Hmax. apply ssize_of_size_small. lia.
    + split; [exact Herr|]. split; [exact Hrest | exact Hrest'].
  - intros ret s' w' H. rewrite run_curls_write in H.
    apply write_loop_result in H.
    assert (Hs : ssize_of_size len = len \/ ssize_of_size len < 0).
    { destruct (Z.le_gt_cases len SSIZE_MAX) as [Hle|Hgt].
      - left. apply ssize_of_size_small. lia.
      - right. rewrite ssize_of_size_large by lia. lia. }
    split; [exact H|].
    destruct H as [[Hret _]|[Hret _]]; subst ret; split; lia.
Qed.

(** Ten bytes taken as 4, a would-block, 5 and 1: four rounds, and the
    write returns 10. *)
Lemma write_all_or_error_witness :
  exists s' w',
    run (curls_write stream_cert_failed 8192 10 0) world_write_in_chunks
      = Some (10, s', w')
    /\ giterr w' = None
    /\ selects (env w') = [1].
Proof.
  destruct (proj1 (write_all_or_error stream_cert_failed world_write_in_chunks
                     8192 10 0 ltac:(unfold SIZE_MODULUS; simpl; lia))
              [quiet CURLE_OK 4; quiet CURLE_AGAIN 0; quiet CURLE_OK 5]
              (quiet CURLE_OK 1) [] [1; 1; 1; 1] [1])
    as (ret & w' & Hrun & _ & Hret & Herr & _ & Hsel).
  - reflexivity.
  - repeat constructor;
      first [ left; reflexivity | right; split; reflexivity ].
  - reflexivity.
  - reflexivity.
  - right. reflexivity.
  - reflexivity.
  - reflexivity.
  - repeat constructor; discriminate.
  - rewrite (Hret ltac:(unfold SSIZE_MAX; simpl; lia)) in Hrun.
    do 2 eexists. split; [exact Hrun|]. split; [exact Herr | exact Hsel].
Defined.

(** The number of rounds [curls_write] and [curls_read] allow their loops is
    no restriction: past the number of replies of [select] that are left,
    more rounds change nothing. *)
Lemma write_loop_rounds_enough (data len : Z) (n : nat) :
  forall (m : nat) (s : curl_stream) (off : Z) (w : world),
  (List.length (selects (env w)) < n)%nat ->
  (List.length (selects (env w)) < m)%nat ->
  run (write_loop n s data len off) w = run (write_loop m s data len off) w.
Proof.
  induction n as [|n IH]; intros m s off w Hn Hm; [lia|].
  destruct m as [|m]; [lia|].
  destruct (selects (env w)) as [|r q] eqn:Hs.
  { cbn [write_loop]. rewrite !run_bind.
    rewrite (run_wait_for_blocked _ _ _ Hs). reflexivity. }
  destruct (Z.lt_ge_cases r 0) as [Hr|Hr].
  { rewrite !(write_loop_wait_fails _ _ _ _ _ _ _ _ Hs Hr). reflexivity. }
  destruct (sends (env w)) as [|g q'] eqn:Hg.
  { cbn [write_loop]. rewrite !run_bind.
    rewrite (run_wait_for_ok _ _ _ _ _ Hs Hr).
    change (0 <? 0) with false. cbv iota. rewrite !run_bind.
    rewrite run_send_blocked by exact Hg. reflexivity. }
  rewrite !(write_loop_round _ _ _ _ _ _ _ _ _ _ Hs Hr Hg). cbv zeta.
  destruct (_ && _); [|reflexivity].
  apply IH; simpl in *; lia.
Qed.

Lemma run_recv_blocked (h buf n : Z) (w : world) :
  recvs (env w) = [] -> run (curl_easy_recv h buf n) w = None.
Proof.
  intros H. take_reply H.
Qed.

Lemma read_loop_rounds_enough (data len : Z) (n : nat) :
  forall (m : nat) (s : curl_stream) (w : world),
  (List.length (selects (env w)) < n)%nat ->
  (List.length (selects (env w)) < m)%nat ->
  run (read_loop n s data len) w = run (read_loop m s data len) w.
Proof.
  induction n as [|n IH]; intros m s w Hn Hm; [lia|].
  destruct m as [|m]; [lia|].
  destruct (selects (env w)) as [|r q] eqn:Hs.
  { cbn [read_loop]. rewrite !run_bind.
    rewrite (run_wait_for_blocked _ _ _ Hs). reflexivity. }
  destruct (Z.lt_ge_cases r 0) as [Hr|Hr].
  { rewrite !(read_loop_wait_fails _ _ _ _ _ _ _ Hs Hr). reflexivity. }
  destruct (recvs (env w)) as [|g q'] eqn:Hg.
  { cbn [read_loop]. rewrite !run_bind.
    rewrite (run_wait_for_ok _ _ _ _ _ Hs Hr).
    change (0 <? 0) with false. cbv iota. rewrite !run_bind.
    rewrite run_recv_blocked by exact Hg. reflexivity. }
  rewrite !(read_loop_round _ _ _ _ _ _ _ _ _ Hs Hr Hg). cbv zeta.
  destruct (CURLcode_eqb (code g) CURLE_AGAIN); [|reflexivity].
  apply IH; simpl in *; lia.
Qed.

(** ** The stream after close *)

Lemma close_result (s0 : curl_stream) (w0 : world) (r0 : Z) (s : curl_stream)
    (w : world) :
  run (curls_close s0) w0 = Some (r0, s, w) ->
  r0 = 0 /\ handle s = NULL /\ (handle s0 <> NULL -> socket s = 0).
Proof.
  unfold curls_close. destruct (truthy (handle s0)) eqn:E; simpl; intros H.
  - inversion H; subst. repeat split.
  - inversion H; subst. apply truthy_false_iff in E.
    split; [reflexivity|]. split; [exact E|]. intros Hn. contradiction.
Qed.

(** ** The factory *)

Lemma run_calloc (w : world) (b : bool) (q : list bool) :
  callocs (env w) = b :: q ->
  run git__calloc w =
  Some (b, with_env (rest_callocs (env w) q) (logged Call_calloc w)).
Proof.
  intros H. take_reply H.
Qed.

Lemma run_init (w : world) (h : Z) (q : list Z) :
  inits (env w) = h :: q ->
  run curl_easy_init w =
  Some (h, with_env (rest_inits (env w) q) (logged Call_init w)).
Proof.
  intros H. take_reply H.
Qed.

(** C6, as the code has it: the factory parses the port after it has
    allocated the stream and created the transport handle.  When both of
    these succeed and the parser then reports an error for the port, the
    factory returns that error, sets no option on the handle and hands out
    no stream. *)
Theorem factory_bad_port (git__strtol32 : string -> Z -> W (Z * option Z))
    (host port : string) (enc : Z) (w : world) (qa : list bool) (h : Z)
    (qi : list Z) (e : Z) (v : option Z) (w2 : world) :
  callocs (env w) = true :: qa ->
  inits (env w) = h :: qi ->
  h <> NULL ->
  run (git__strtol32 port 10)
      (with_env (rest_inits (rest_callocs (env w) qa) qi)
         (logged Call_init (logged Call_calloc w)))
    = Some ((e, v), w2) ->
  e < 0 ->
  run (git_curl_stream_new git__strtol32 host port enc) w = Some ((e, None), w2).
Proof.
  intros Ha Hi Hh Hp He. unfold git_curl_stream_new.
  rewrite run_bind, (run_calloc _ _ _ Ha). cbn [negb]. cbv iota.
  rewrite run_bind, (run_init _ h qi) by exact Hi.
  destruct (Z.eqb_spec h NULL) as [E|_]; [contradiction|].
  rewrite run_bind.
  change (with_env (rest_inits
                      (env (with_env (rest_callocs (env w) qa) (logged Call_calloc w)))
                      qi)
            (logged Call_init
               (with_env (rest_callocs (env w) qa) (logged Call_calloc w))))
    with (with_env (rest_inits (rest_callocs (env w) qa) qi)
            (logged Call_init (logged Call_calloc w))).
  rewrite Hp. cbn [fst snd].
  destruct (Z.ltb_spec e 0); [reflexivity|lia].
Qed.

(** The port "abc" with the decimal parser. *)
Lemma factory_bad_port_witness :
  run (git_curl_stream_new strtol32_dec "example.org" "abc" 1) world_factory
    = Some ((-1, None),
            mk_world
              (Some (GITERR_INVALID, "Failed to convert string to long. Not a number"))
              [Call_calloc; Call_init] no_replies).
Proof.
  apply (factory_bad_port strtol32_dec "example.org" "abc" 1 world_factory
           [] 4096 [] (-1) None).
  - reflexivity.
  - reflexivity.
  - discriminate.
  - reflexivity.
  - reflexivity.
Defined.

(** C6, as stated, fails: with the port "abc" the factory has already
    created the transport handle when it returns the parser's error; and
    when the handle cannot be created it is that failure, a network error,
    the factory reports, not the port. *)
Lemma factory_bad_port_counterexample :
  run (strtol32_dec "abc" 10) (world_of no_replies)
    = Some ((-1, None),
            failed GITERR_INVALID "Failed to convert string to long. Not a number"
              (world_of no_replies))
  /\ (exists w',
        run (git_curl_stream_new strtol32_dec "example.org" "abc" 1) world_factory
          = Some ((-1, None), w')
        /\ trace w' = [Call_calloc; Call_init]
        /\ inits (env world_factory) = [4096]
        /\ inits (env w') = [])
  /\ (exists w',
        run (git_curl_stream_new strtol32_dec "example.org" "abc" 1)
            world_factory_no_handle
          = Some ((-1, None), w')
        /\ giterr w' = Some (GITERR_NET, "failed to create curl handle")).
Proof.
  split; [reflexivity|]. split; eexists; (split; [vm_compute; reflexivity|]);
    repeat split.
Qed.

(** ** A whole session *)

(** The scenario of a verified peer: every call succeeds, the write returns
    the whole length and the read what the transport had; the calls that
    left the program are the ones of the source, in its order. *)
Example session_run :
  run (session "example.org" "443" 8192 16 12288 4096) world_session
    = Some ([0; 0; 16; 100; 0],
            mk_world None
              [Call_calloc; Call_init;
               Call_setopt 4096 (CURLOPT_URL "https://example.org");
               Call_setopt 4096 CURLOPT_ERRORBUFFER;
               Call_setopt 4096 (CURLOPT_PORT 443);
               Call_setopt 4096 (CURLOPT_CONNECT_ONLY 1);
               Call_setopt 4096 (CURLOPT_SSL_VERIFYPEER 1);
               Call_setopt 4096 (CURLOPT_CERTINFO 1);
               Call_perform 4096; Call_getinfo_lastsocket 4096;
               Call_select 6 [] [5] [5]; Call_send 4096 8192 16;
               Call_select 6 [5] [] [5]; Call_recv 4096 12288 4096;
               Call_cleanup 4096; Call_free]
              no_replies).
Proof. vm_compute. reflexivity. Qed.

(** ** More on connect *)

Lemma run_perform_blocked (h : Z) (w : world) :
  performs (env w) = [] -> run (curl_easy_perform h) w = None.
Proof. intros H. take_reply H. Qed.

Lemma run_getinfo_blocked (h : Z) (w : world) :
  getinfos (env w) = [] -> run (curl_easy_getinfo_lastsocket h) w = None.
Proof. intros H. take_reply H. Qed.

Lemma cert_info_errbuf_after (s : curl_stream) (r : curl_reply) :
  cert_info (errbuf_after s r) = cert_info s.
Proof. unfold errbuf_after. destruct (errtext r); reflexivity. Qed.

Lemma truthy_true_iff (z : Z) : truthy z = true <-> z <> 0.
Proof.
  unfold truthy. destruct (Z.eqb_spec z 0); simpl; split; congruence.
Qed.

(** X1: whenever [curls_connect] returns, it returns -1, 0 or the
    certificate error, and nothing else.  With -1 a network error is
    recorded and the socket field is as it was.  With the other two the
    socket extraction has succeeded and its value is in the stream, and no
    error is recorded; the certificate error comes only on a stream whose
    [encrypted] is not zero and after "peer certificate verification failed",
    and 0 after that answer only on a stream whose [encrypted] is zero. *)
Theorem connect_result_cases (s : curl_stream) (w : world) (ret : Z)
    (s' : curl_stream) (w' : world) :
  run (curls_connect s) w = Some (ret, s', w') ->
  exists r q,
    performs (env w) = r :: q
    /\ ((ret = -1 /\ giterr w' = net_error s' /\ socket s' = socket s)
        \/ (exists g q',
              getinfos (env w) = g :: q'
              /\ code g = CURLE_OK
              /\ socket s' = int_of_long (out g)
              /\ giterr w' = giterr w
              /\ ((ret = 0
                   /\ (code r = CURLE_OK
                       \/ (code r = CURLE_PEER_FAILED_VERIFICATION
                           /\ encrypted (parent s) = 0)))
                  \/ (ret = GIT_ECERTIFICATE
                      /\ code r = CURLE_PEER_FAILED_VERIFICATION
                      /\ encrypted (parent s) <> 0)))).
Proof.
  intros H. destruct (performs (env w)) as [|r q] eqn:Hp.
  { unfold curls_connect in H. rewrite run_bind in H.
    rewrite (run_perform_blocked _ _ Hp) in H. discriminate H. }
  exists r, q. split; [reflexivity|].
  rewrite (connect_after_perform _ _ _ _ Hp) in H. cbv zeta in H.
  destruct (CURLcode_eqb (code r) CURLE_OK) eqn:Eok;
    destruct (CURLcode_eqb (code r) CURLE_PEER_FAILED_VERIFICATION) eqn:Epfv;
    cbn [negb andb] in H.
  4: { inversion H; subst. left.
       rewrite !socket_errbuf_after. repeat split. }
  all: destruct (getinfos (env w)) as [|g q'] eqn:Hg;
    [ rewrite run_getinfo_blocked in H by exact Hg; discriminate H | ];
    rewrite (run_getinfo _ _ g q') in H by exact Hg;
    destruct (CURLcode_eqb (code g) CURLE_OK) eqn:Eg; cbn [negb] in H;
    [ | inversion H; subst; left; rewrite !socket_errbuf_after; repeat split ];
    right; exists g, q'; apply CURLcode_eqb_eq in Eg;
    rewrite ?andb_false_r, ?andb_true_r in H; cbn [set_socket parent] in H;
    rewrite ?parent_errbuf_after in H.
  - apply CURLcode_eqb_eq in Eok, Epfv. congruence.
  - apply CURLcode_eqb_eq in Eok. inversion H; subst.
    split; [reflexivity|]. split; [exact Eg|]. split; [reflexivity|].
    split; [reflexivity|]. left. split; [reflexivity|]. left. exact Eok.
  - apply CURLcode_eqb_eq in Epfv.
    destruct (truthy (encrypted (parent s))) eqn:Et; inversion H; subst;
      (split; [reflexivity|]); (split; [exact Eg|]); (split; [reflexivity|]);
      (split; [reflexivity|]).
    + right. split; [reflexivity|]. split; [exact Epfv|].
      apply truthy_true_iff. exact Et.
    + left. split; [reflexivity|]. right. split; [exact Epfv|].
      apply truthy_false_iff. exact Et.
Qed.

(** The unencrypted stream of [world_cert_failed]: connect returns 0. *)
Lemma connect_result_cases_witness :
  exists r q,
    performs (env world_cert_failed) = r :: q
    /\ code r = CURLE_PEER_FAILED_VERIFICATION
    /\ encrypted (parent (fresh_stream 0)) = 0.
Proof.
  destruct (connect_result_cases (fresh_stream 0) world_cert_failed 0
              (set_socket (set_curl_error (fresh_stream 0) "SSL certificate problem") 5)
              world_after_cert_failed eq_refl)
    as (r & q & Hp & [[Hret _] | (g & q' & _ & _ & _ & _ & [[_ [Hok | Hpfv]] | [Hret _]])]).
  - discriminate Hret.
  - exists r, q. split; [exact Hp|]. injection Hp as Hr _. subst r. discriminate Hok.
  - exists r, q. split; [exact Hp|]. exact Hpfv.
  - discriminate Hret.
Defined.

(** ** Every return of read *)

Lemma errbuf_after_all_app (s : curl_stream) (l1 l2 : list curl_reply) :
  errbuf_after_all s (l1 ++ l2) = errbuf_after_all (errbuf_after_all s l1) l2.
Proof. unfold errbuf_after_all. apply fold_left_app. Qed.

(** What a return of the read loop says about the run: the replies of
    [curl_easy_recv] it has taken, [used], are would-block answers followed
    by at most one other, which decides the result; the wait that fails, if
    one does, comes after would-block answers only. *)
Lemma read_loop_returns (data len : Z) (n : nat) :
  forall (s : curl_stream) (w : world) (ret : Z) (s' : curl_stream) (w' : world),
  run (read_loop n s data len) w = Some (ret, s', w') ->
  exists used,
    recvs (env w) = (used ++ recvs (env w'))%list
    /\ s' = errbuf_after_all s used
    /\ ((Forall would_block used
         /\ ret = -1 /\ giterr w' = select_error
         /\ trace w' = (trace w ++ read_rounds (List.length used) s data len
                          ++ [wait_call (socket s) true])%list)
        \/ (exists pre g,
              used = (pre ++ [g])%list
              /\ Forall would_block pre
              /\ code g <> CURLE_AGAIN
              /\ trace w' = (trace w ++ read_rounds (List.length used) s data len)%list
              /\ ((code g = CURLE_OK
                   /\ ret = ssize_of_size (out g) /\ giterr w' = giterr w)
                  \/ (code g <> CURLE_OK
                      /\ ret = -1 /\ giterr w' = net_error s')))).
Proof.
  induction n as [|n IH]; intros s w ret s' w' H; [discriminate H|].
  destruct (selects (env w)) as [|r q] eqn:Hs.
  { cbn [read_loop] in H. rewrite run_bind in H.
    rewrite (run_wait_for_blocked _ _ _ Hs) in H. discriminate H. }
  destruct (Z.lt_ge_cases r 0) as [Hr|Hr].
  { rewrite (read_loop_wait_fails _ _ _ _ _ _ _ Hs Hr) in H.
    inversion H; subst. exists []. split; [reflexivity|]. split; [reflexivity|].
    left. split; [constructor|]. repeat split. }
  destruct (recvs (env w)) as [|g q'] eqn:Hg.
  { cbn [read_loop] in H. rewrite run_bind in H.
    rewrite (run_wait_for_ok _ _ _ _ _ Hs Hr) in H.
    change (0 <? 0) with false in H. cbv iota in H. rewrite run_bind in H.
    rewrite run_recv_blocked in H by exact Hg. discriminate H. }
  rewrite (read_loop_round _ _ _ _ _ _ _ _ _ Hs Hr Hg) in H. cbv zeta in H.
  destruct (CURLcode_eqb (code g) CURLE_AGAIN) eqn:Eag.
  - apply CURLcode_eqb_eq in Eag. apply IH in H.
    destruct H as (used & Hused & Hs' & Hcases). simpl in Hused.
    exists (g :: used). split; [simpl; rewrite <- Hused; reflexivity|].
    split; [exact Hs'|].
    destruct Hcases as [(Hall & Hret & Herr & Htr)
                       | (pre & g' & Hu & Hall & Hg' & Htr & Hres)].
    + left. split; [constructor; assumption|].
      split; [exact Hret|]. split; [exact Herr|].
      rewrite Htr, read_rounds_errbuf_after, socket_errbuf_after. simpl.
      rewrite <- !app_assoc. reflexivity.
    + right. exists (g :: pre), g'. split; [rewrite Hu; reflexivity|].
      split; [constructor; assumption|]. split; [exact Hg'|].
      split; [|exact Hres].
      rewrite Htr, read_rounds_errbuf_after. simpl.
      rewrite <- !app_assoc. reflexivity.
  - apply CURLcode_eqb_neq in Eag.
    exists [g]. 
    assert (Htr : forall w1 : world,
               trace w1 = ((trace w ++ [wait_call (socket s) true])
                             ++ [Call_recv (handle s) data len])%list ->
               trace w1 = (trace w ++ read_rounds 1 s data len)%list).
    { intros w1 E. rewrite E, <- app_assoc. reflexivity. }
    destruct (CURLcode_eqb (code g) CURLE_OK) eqn:Eok; cbn [negb] in H;
      inversion H; subst; (split; [reflexivity|]); (split; [reflexivity|]);
      right; exists [], g; (split; [reflexivity|]); (split; [constructor|]);
      (split; [exact Eag|]); (split; [apply Htr; reflexivity|]).
    + left. apply CURLcode_eqb_eq in Eok. split; [exact Eok|].
      split; [apply ssize_of_size_to_size | reflexivity].
    + right. apply CURLcode_eqb_neq in Eok. split; [exact Eok|].
      split; reflexivity.
Qed.

(** X2: whenever [curls_read] returns, the replies of [curl_easy_recv] it
    has taken are would-block answers followed by at most one other; each
    was asked for after a wait of its own on the stream's socket, with the
    handle the stream holds, and nothing else was called.  If the
    last reply is success the return is its byte count and no error is
    recorded; if it is any other code the return is -1 with a network error;
    and if there is no such reply a wait has failed, the return is -1 and the
    OS error is recorded.  Replies past the deciding one stay in the world. *)
Theorem read_returns_shape (s : curl_stream) (w : world) (data len ret : Z)
    (s' : curl_stream) (w' : world) :
  run (curls_read s data len) w = Some (ret, s', w') ->
  exists used,
    recvs (env w) = (used ++ recvs (env w'))%list
    /\ s' = errbuf_after_all s used
    /\ ((Forall would_block used
         /\ ret = -1 /\ giterr w' = select_error
         /\ trace w' = (trace w ++ read_rounds (List.length used) s data len
                          ++ [wait_call (socket s) true])%list)
        \/ (exists pre g,
              used = (pre ++ [g])%list
              /\ Forall would_block pre
              /\ code g <> CURLE_AGAIN
              /\ trace w' = (trace w ++ read_rounds (List.length used) s data len)%list
              /\ ((code g = CURLE_OK
                   /\ ret = ssize_of_size (out g) /\ giterr w' = giterr w)
                  \/ (code g <> CURLE_OK
                      /\ ret = -1 /\ giterr w' = net_error s')))).
Proof.
  intros H. rewrite run_curls_read in H.
  apply read_loop_returns in H. exact H.
Qed.

(** In [world_read_after_two_retries] the read has taken three replies. *)
Lemma read_returns_shape_witness :
  exists used,
    recvs (env world_read_after_two_retries) = (used ++ [quiet CURLE_OK 9])%list
    /\ List.length used = 3%nat.
Proof.
  destruct (read_returns_shape stream_cert_failed world_read_after_two_retries
              8192 10 3 stream_cert_failed
              (mk_world None (read_rounds 3 stream_cert_failed 8192 10)
                 (mk_pending [] [] [] [] [] [quiet CURLE_OK 9] [1]))
              eq_refl)
    as (used & Hused & _).
  exists used. split; [exact Hused|].
  apply (f_equal (@List.length curl_reply)) in Hused.
  rewrite length_app in Hused. simpl in Hused. lia.
Defined.

(** ** Every return of write *)

Lemma write_rounds_errbuf_after (s : curl_stream) (g : curl_reply)
    (data len : Z) (l : list curl_reply) :
  forall off : Z,
  write_rounds (errbuf_after s g) data len off l = write_rounds s data len off l.
Proof.
  induction l as [|a l IH]; intros off; simpl; [reflexivity|].
  rewrite socket_errbuf_after, handle_errbuf_after, IH. reflexivity.
Qed.

Lemma round_offset (off : Z) (g : curl_reply) :
  (if CURLcode_eqb (code g) CURLE_OK then to_size (off + accepted g) else off)
  = next_offset off g.
Proof.
  unfold next_offset, accepted, size_add.
  destruct (CURLcode_eqb (code g) CURLE_OK); reflexivity.
Qed.

Lemma offset_after_app (off : Z) (l1 l2 : list curl_reply) :
  offset_after off (l1 ++ l2) = offset_after (offset_after off l1) l2.
Proof. unfold offset_after. apply fold_left_app. Qed.

(** What a return of the write loop says about the run: after the replies of
    [curl_easy_send] it has taken, either a wait has failed, or the last of
    them has decided the result, and then the whole length is returned only
    if that reply is success and the offset has reached the length. *)
Lemma write_loop_returns (data len : Z) (n : nat) :
  forall (s : curl_stream) (off : Z) (w : world) (ret : Z) (s' : curl_stream)
         (w' : world),
  run (write_loop n s data len off) w = Some (ret, s', w') ->
  exists used,
    sends (env w) = (used ++ sends (env w'))%list
    /\ s' = errbuf_after_all s used
    /\ ((ret = -1 /\ giterr w' = select_error
         /\ trace w' = (trace w ++ write_rounds s data len off used
                          ++ [wait_call (socket s) false])%list)
        \/ (exists pre g,
              used = (pre ++ [g])%list
              /\ trace w' = (trace w ++ write_rounds s data len off used)%list
              /\ ((code g = CURLE_OK
                   /\ len <= offset_after off used
                   /\ ret = ssize_of_size len /\ giterr w' = giterr w)
                  \/ (code g <> CURLE_OK
                      /\ ret = -1 /\ giterr w' = net_error s')))).
Proof.
  induction n as [|n IH]; intros s off w ret s' w' H; [discriminate H|].
  destruct (selects (env w)) as [|r q] eqn:Hs.
  { cbn [write_loop] in H. rewrite run_bind in H.
    rewrite (run_wait_for_blocked _ _ _ Hs) in H. discriminate H. }
  destruct (Z.lt_ge_cases r 0) as [Hr|Hr].
  { rewrite (write_loop_wait_fails _ _ _ _ _ _ _ _ Hs Hr) in H.
    inversion H; subst. exists []. split; [reflexivity|]. split; [reflexivity|].
    left. repeat split. }
  destruct (sends (env w)) as [|g q'] eqn:Hg.
  { cbn [write_loop] in H. rewrite run_bind in H.
    rewrite (run_wait_for_ok _ _ _ _ _ Hs Hr) in H.
    change (0 <? 0) with false in H. cbv iota in H. rewrite run_bind in H.
    rewrite run_send_blocked in H by exact Hg. discriminate H. }
  rewrite (write_loop_round _ _ _ _ _ _ _ _ _ _ Hs Hr Hg) in H. cbv zeta in H.
  rewrite round_offset in H.
  destruct ((CURLcode_eqb (code g) CURLE_OK || CURLcode_eqb (code g) CURLE_AGAIN)
            && (next_offset off g <? len)) eqn:Econt.
  - apply IH in H. destruct H as (used & Hused & Hs' & Hcases). simpl in Hused.
    exists (g :: used). split; [simpl; rewrite <- Hused; reflexivity|].
    split; [exact Hs'|].
    destruct Hcases as [(Hret & Herr & Htr) | (pre & g' & Hu & Htr & Hres)].
    + left. split; [exact Hret|]. split; [exact Herr|].
      rewrite Htr, write_rounds_errbuf_after, socket_errbuf_after. simpl.
      rewrite <- !app_assoc. reflexivity.
    + right. exists (g :: pre), g'. split; [rewrite Hu; reflexivity|].
      split; [|exact Hres].
      rewrite Htr, write_rounds_errbuf_after. simpl.
      rewrite <- !app_assoc. reflexivity.
  - exists [g].
    destruct (CURLcode_eqb (code g) CURLE_OK) eqn:Eok; cbn [negb orb andb] in H, Econt;
      inversion H; subst; (split; [reflexivity|]); (split; [reflexivity|]);
      right; exists [], g; (split; [reflexivity|]);
      (split; [simpl; rewrite <- app_assoc; reflexivity|]).
    + left. apply CURLcode_eqb_eq in Eok. split; [exact Eok|].
      split; [simpl; apply Z.ltb_ge; exact Econt|]. split; reflexivity.
    + right. apply CURLcode_eqb_neq in Eok. split; [exact Eok|].
      split; reflexivity.
Qed.

(** X3: whenever [curls_write] returns, each reply of [curl_easy_send] it has
    taken was asked for after a wait of its own on the stream's socket, and
    for the bytes from the current offset to the end, the offset moving on by
    what each successful reply reports; nothing else was called.  The whole
    length is returned, with no error recorded, only if the last reply is
    success and the offset has reached the length; if the last reply is
    another code the return is -1 with a network error, also when earlier
    replies had taken bytes; if a wait has failed it is -1 with the OS
    error. *)
Theorem write_returns_shape (s : curl_stream) (w : world) (data len flags ret : Z)
    (s' : curl_stream) (w' : world) :
  run (curls_write s data len flags) w = Some (ret, s', w') ->
  exists used,
    sends (env w) = (used ++ sends (env w'))%list
    /\ s' = errbuf_after_all s used
    /\ ((ret = -1 /\ giterr w' = select_error
         /\ trace w' = (trace w ++ write_rounds s data len 0 used
                          ++ [wait_call (socket s) false])%list)
        \/ (exists pre g,
              used = (pre ++ [g])%list
              /\ trace w' = (trace w ++ write_rounds s data len 0 used)%list
              /\ ((code g = CURLE_OK
                   /\ len <= offset_after 0 used
                   /\ ret = ssize_of_size len /\ giterr w' = giterr w)
                  \/ (code g <> CURLE_OK
                      /\ ret = -1 /\ giterr w' = net_error s')))).
Proof.
  intros H. rewrite run_curls_write in H.
  apply write_loop_returns in H. exact H.
Qed.

(** In [world_write_in_chunks] the write has taken the four replies. *)
Lemma write_returns_shape_witness :
  exists used,
    sends (env world_write_in_chunks) = (used ++ [])%list
    /\ stream_cert_failed = errbuf_after_all stream_cert_failed used.
Proof.
  destruct (write_returns_shape stream_cert_failed world_write_in_chunks
              8192 10 0 10 stream_cert_failed
              (mk_world None
                 (write_rounds stream_cert_failed 8192 10 0
                    (sends (env world_write_in_chunks)))
                 (mk_pending [] [] [] [] [] [] [1]))
              eq_refl)
    as (used & Hused & Hs & _).
  exists used. split; [exact Hused | exact Hs].
Defined.

(** ** write: failure after progress, and the empty write *)

Lemma next_offset_chunk (off len : Z) (a : curl_reply) :
  0 <= off -> len < SIZE_MODULUS -> chunk_or_again a -> off + accepted a < len ->
  next_offset off a = off + accepted a
  /\ (CURLcode_eqb (code a) CURLE_OK || CURLcode_eqb (code a) CURLE_AGAIN)
     && (next_offset off a <? len) = true.
Proof.
  intros Hoff Hlen Ha Hlt. rewrite <- round_offset.
  pose proof (accepted_nonneg a) as Hacc.
  destruct Ha as [Ha|[Ha Hnz]]; unfold accepted in *; rewrite Ha in *;
    cbn [CURLcode_eqb orb andb] in *.
  - split; [lia | apply Z.ltb_lt; lia].
  - rewrite to_size_small by lia. split; [reflexivity | apply Z.ltb_lt; lia].
Qed.

(** The write loop goes through replies that would block or take a chunk
    that is not empty, as long as the bytes taken stay short of the length. *)
Lemma write_loop_through (data len : Z) (rest : list curl_reply) (rest' : list Z)
    (pre : list curl_reply) :
  forall (n : nat) (s : curl_stream) (w : world) (sel : list Z) (off : Z),
  0 <= off -> len < SIZE_MODULUS ->
  sends (env w) = (pre ++ rest)%list ->
  Forall chunk_or_again pre ->
  pre = [] \/ off + total_accepted pre < len ->
  selects (env w) = (sel ++ rest')%list ->
  List.length sel = List.length pre ->
  Forall (fun r => 0 <= r) sel ->
  exists w1,
    run (write_loop (List.length pre + n) s data len off) w
      = run (write_loop n (errbuf_after_all s pre) data len
               (off + total_accepted pre)) w1
    /\ sends (env w1) = rest
    /\ selects (env w1) = rest'
    /\ giterr w1 = giterr w.
Proof.
  induction pre as [|a pre IH];
    intros n s w sel off Hoff Hlt Hsend Hpre Hmore Hsel Hlen Hpos.
  - destruct sel; [|discriminate Hlen]. exists w. simpl.
    rewrite Z.add_0_r. repeat split; assumption.
  - destruct sel as [|r sel]; [discriminate Hlen|].
    simpl in Hsel, Hsend, Hlen.
    pose proof (Forall_inv Hpos) as Hr. simpl in Hr.
    pose proof (Forall_inv_tail Hpos) as Hpos'.
    pose proof (Forall_inv Hpre) as Ha.
    pose proof (Forall_inv_tail Hpre) as Hpre'.
    destruct Hmore as [Hmore|Hmore]; [discriminate Hmore|]. simpl in Hmore.
    pose proof (total_accepted_nonneg pre) as Htot.
    pose proof (accepted_nonneg a) as Hacc.
    destruct (next_offset_chunk off len a Hoff Hlt Ha ltac:(lia)) as [Hnext Hcont].
    cbn [List.length Nat.add].
    rewrite (write_loop_round _ _ _ _ _ _ _ _ _ _ Hsel Hr Hsend). cbv zeta.
    rewrite round_offset, Hcont, Hnext.
    destruct (IH n (errbuf_after s a)
                (with_env (rest_sends (rest_selects (env w) (sel ++ rest')%list)
                             (pre ++ rest)%list)
                   (logged (Call_send (handle s) (data + off) (size_sub len off))
                      (logged (wait_call (socket s) false) w)))
                sel (off + accepted a))
      as (w1 & Hrun & Hrest & Hrest' & Herr);
      [ lia | exact Hlt | reflexivity | exact Hpre' | right; lia | reflexivity
      | lia | exact Hpos' | ].
    exists w1. split; [|split; [exact Hrest|split; [exact Hrest' | exact Herr]]].
    rewrite Hrun. simpl total_accepted. rewrite Z.add_assoc. reflexivity.
Qed.

(** X4: bytes taken before a failure are not reported.  When the transport
    has taken chunks, fewer bytes than the length in all, with would-block
    answers in between, and then answers a send with a code that is neither
    success nor would-block, [curls_write] returns -1 with a network error,
    and takes no reply past the failing one. *)
Theorem write_fails_after_progress (s : curl_stream) (w : world)
    (data len flags : Z) (pre : list curl_reply) (g : curl_reply)
    (rest : list curl_reply) (sel : list Z) (r : Z) (rest' : list Z) :
  0 <= len < SIZE_MODULUS ->
  sends (env w) = (pre ++ g :: rest)%list ->
  Forall chunk_or_again pre ->
  pre = [] \/ total_accepted pre < len ->
  hard_failure (code g) ->
  selects (env w) = (sel ++ r :: rest')%list ->
  List.length sel = List.length pre ->
  Forall (fun r => 0 <= r) sel ->
  0 <= r ->
  exists w',
    run (curls_write s data len flags) w
      = Some (-1, errbuf_after_all s (pre ++ [g]), w')
    /\ giterr w' = net_error (errbuf_after_all s (pre ++ [g]))
    /\ sends (env w') = rest
    /\ selects (env w') = rest'.
Proof.
  intros Hlen Hsend Hpre Hmore [Hok Hag] Hsel Hl Hpos Hr.
  rewrite run_curls_write.
  rewrite (write_loop_rounds_enough data len _
             (List.length pre + S (S (List.length rest'))))
    by (rewrite Hsel, length_app; simpl; lia).
  destruct (write_loop_through data len (g :: rest) (r :: rest') pre
              (S (S (List.length rest'))) s w sel 0)
    as (w1 & Hrun & Hs1 & Hsel1 & Herr1);
    [ lia | lia | exact Hsend | exact Hpre
    | destruct Hmore; [left; assumption | right; lia]
    | exact Hsel | exact Hl | exact Hpos | ].
  rewrite Hrun.
  rewrite (write_loop_round _ _ _ _ _ _ _ _ _ _ Hsel1 Hr Hs1). cbv zeta.
  apply CURLcode_eqb_neq in Hok, Hag. rewrite Hok, Hag. cbn [orb andb negb].
  rewrite errbuf_after_all_app. simpl.
  eexists. split; [reflexivity|]. repeat split.
Qed.

(** Four bytes taken, a would-block, then a broken pipe: -1, and the text of
    the failure in the error. *)
Lemma write_fails_after_progress_witness :
  exists s' w',
    run (curls_write stream_cert_failed 8192 10 0) world_write_breaks
      = Some (-1, s', w')
    /\ giterr w' = net_error s'
    /\ sends (env w') = [quiet CURLE_OK 6].
Proof.
  destruct (write_fails_after_progress stream_cert_failed world_write_breaks
              8192 10 0 [quiet CURLE_OK 4; quiet CURLE_AGAIN 0]
              (mk_curl_reply (CURLE_other 55) 0 (Some "Send failure: Broken pipe"))
              [quiet CURLE_OK 6] [1; 1] 1 [1])
    as (w' & Hrun & Herr & Hrest & _).
  - unfold SIZE_MODULUS. simpl. lia.
  - reflexivity.
  - repeat constructor;
      first [ left; reflexivity | right; split; reflexivity ].
  - right. reflexivity.
  - split; discriminate.
  - reflexivity.
  - reflexivity.
  - repeat constructor; discriminate.
  - lia.
  - do 2 eexists. split; [exact Hrun|]. split; [exact Herr | exact Hrest].
Defined.

(** X5: a write of no bytes still waits for the socket and calls
    [curl_easy_send] once, for 0 bytes.  If that call succeeds the write
    returns 0; any other answer, would-block among them, makes it return -1
    with a network error, as there is nothing left to go round for. *)
Theorem write_of_nothing (s : curl_stream) (w : world) (data flags : Z)
    (r : Z) (q : list Z) (g : curl_reply) (q' : list curl_reply) :
  selects (env w) = r :: q -> 0 <= r ->
  sends (env w) = g :: q' ->
  exists w1,
    trace w1 = (trace w ++ [wait_call (socket s) false;
                            Call_send (handle s) data 0])%list
    /\ giterr w1 = giterr w
    /\ (code g = CURLE_OK ->
        run (curls_write s data 0 flags) w = Some (0, errbuf_after s g, w1))
    /\ (code g <> CURLE_OK ->
        run (curls_write s data 0 flags) w
          = Some (-1, errbuf_after s g,
                  failed GITERR_NET
                    ("curl error: " ++ curl_error (errbuf_after s g) ++ newline) w1)).
Proof.
  intros Hs Hr Hg. rewrite run_curls_write.
  rewrite (write_loop_round _ _ _ _ _ _ _ _ _ _ Hs Hr Hg). cbv zeta.
  rewrite round_offset, Z.add_0_r.
  assert (Hoff : (next_offset 0 g <? 0) = false).
  { apply Z.ltb_ge. unfold next_offset, size_add.
    destruct (CURLcode_eqb (code g) CURLE_OK); [apply to_size_bounds | lia]. }
  rewrite Hoff, andb_false_r.
  exists (with_env (rest_sends (rest_selects (env w) q) q')
            (logged (Call_send (handle s) data 0)
               (logged (wait_call (socket s) false) w))).
  split; [simpl; rewrite <- app_assoc; reflexivity|]. split; [reflexivity|].
  split.
  - intros Hok. rewrite Hok. reflexivity.
  - intros Hko. apply CURLcode_eqb_neq in Hko. rewrite Hko. reflexivity.
Qed.

(** An empty write on a transport that would block. *)
Lemma write_of_nothing_witness :
  exists s' w',
    run (curls_write stream_cert_failed 8192 0 0) world_stalled = Some (-1, s', w')
    /\ giterr w' = net_error s'.
Proof.
  destruct (write_of_nothing stream_cert_failed world_stalled 8192 0
              1 [1; 1; 1; 1] (quiet CURLE_AGAIN 0)
              [quiet CURLE_OK 0; quiet CURLE_AGAIN 0] eq_refl ltac:(lia) eq_refl)
    as (w1 & _ & _ & _ & Hko).
  do 2 eexists. split; [apply Hko; discriminate | reflexivity].
Defined.

(** ** No limit on the rounds *)

Lemma read_loop_stalls (data len : Z) (n : nat) :
  forall (s : curl_stream) (w : world),
  Forall would_block (recvs (env w)) ->
  Forall (fun r => 0 <= r) (selects (env w)) ->
  run (read_loop n s data len) w = None.
Proof.
  induction n as [|n IH]; intros s w Hrecv Hsel; [reflexivity|].
  destruct (selects (env w)) as [|r q] eqn:Hs.
  { cbn [read_loop]. rewrite run_bind.
    rewrite (run_wait_for_blocked _ _ _ Hs). reflexivity. }
  pose proof (Forall_inv Hsel) as Hr. simpl in Hr.
  destruct (recvs (env w)) as [|g q'] eqn:Hg.
  { cbn [read_loop]. rewrite run_bind.
    rewrite (run_wait_for_ok _ _ _ _ _ Hs Hr).
    change (0 <? 0) with false. cbv iota. rewrite run_bind.
    rewrite run_recv_blocked by exact Hg. reflexivity. }
  rewrite (read_loop_round _ _ _ _ _ _ _ _ _ Hs Hr Hg). cbv zeta.
  pose proof (Forall_inv Hrecv) as Hag. unfold would_block in Hag.
  rewrite Hag. cbn [CURLcode_eqb]. cbv iota.
  apply IH; simpl.
  - exact (Forall_inv_tail Hrecv).
  - exact (Forall_inv_tail Hsel).
Qed.

Lemma next_offset_no_progress (off : Z) (g : curl_reply) :
  0 <= off < SIZE_MODULUS -> no_progress g -> next_offset off g = off.
Proof.
  intros Hoff [Hg|[Hg Hz]]; unfold next_offset, size_add; rewrite Hg;
    cbn [CURLcode_eqb]; [reflexivity|].
  rewrite Hz, Z.add_0_r. apply to_size_small. exact Hoff.
Qed.

Lemma write_loop_stalls (data len : Z) (n : nat) :
  forall (s : curl_stream) (off : Z) (w : world),
  0 <= off < SIZE_MODULUS -> off < len ->
  Forall no_progress (sends (env w)) ->
  Forall (fun r => 0 <= r) (selects (env w)) ->
  run (write_loop n s data len off) w = None.
Proof.
  induction n as [|n IH]; intros s off w Hoff Hlt Hsend Hsel; [reflexivity|].
  destruct (selects (env w)) as [|r q] eqn:Hs.
  { cbn [write_loop]. rewrite run_bind.
    rewrite (run_wait_for_blocked _ _ _ Hs). reflexivity. }
  pose proof (Forall_inv Hsel) as Hr. simpl in Hr.
  destruct (sends (env w)) as [|g q'] eqn:Hg.
  { cbn [write_loop]. rewrite run_bind.
    rewrite (run_wait_for_ok _ _ _ _ _ Hs Hr).
    change (0 <? 0) with false. cbv iota. rewrite run_bind.
    rewrite run_send_blocked by exact Hg. reflexivity. }
  rewrite (write_loop_round _ _ _ _ _ _ _ _ _ _ Hs Hr Hg). cbv zeta.
  pose proof (Forall_inv Hsend) as Hnp.
  rewrite round_offset, (next_offset_no_progress off g Hoff Hnp).
  assert (Hcont : (CURLcode_eqb (code g) CURLE_OK
                   || CURLcode_eqb (code g) CURLE_AGAIN) && (off <? len) = true).
  { apply andb_true_intro. split; [|apply Z.ltb_lt; exact Hlt].
    destruct Hnp as [E|[E _]]; rewrite E; reflexivity. }
  rewrite Hcont. apply IH; simpl.
  - exact Hoff.
  - exact Hlt.
  - exact (Forall_inv_tail Hsend).
  - exact (Forall_inv_tail Hsel).
Qed.

(** X6: the loops have no limit on their rounds and no timeout.  While every
    wait succeeds, [curls_read] has not returned after any number of
    would-block answers, and [curls_write] of at least one byte has not
    returned after any number of answers that would block or succeed with
    no byte taken: the call is still going round when the replies end. *)
Theorem no_limit_on_rounds (s : curl_stream) (w : world) (data len flags : Z) :
  Forall (fun r => 0 <= r) (selects (env w)) ->
  (Forall would_block (recvs (env w)) ->
   run (curls_read s data len) w = None)
  /\ (0 < len ->
      Forall no_progress (sends (env w)) ->
      run (curls_write s data len flags) w = None).
Proof.
  intros Hsel. split.
  - intros Hrecv. rewrite run_curls_read. apply read_loop_stalls; assumption.
  - intros Hlen Hsend. rewrite run_curls_write.
    apply write_loop_stalls; try assumption.
    unfold SIZE_MODULUS. simpl. lia.
Qed.

(** Three would-block answers each way, five waits at hand. *)
Lemma no_limit_on_rounds_witness :
  run (curls_read stream_cert_failed 8192 10) world_stalled = None
  /\ run (curls_write stream_cert_failed 8192 10 0) world_stalled = None.
Proof.
  destruct (no_limit_on_rounds stream_cert_failed world_stalled 8192 10 0)
    as [Hread Hwrite].
  - repeat constructor; discriminate.
  - split.
    + apply Hread. repeat constructor.
    + apply Hwrite; [lia|].
      repeat constructor;
        first [ left; reflexivity | right; split; reflexivity ].
Defined.

(** ** The text of the network error *)

Lemma curl_error_errbuf_after_all (l : list curl_reply) :
  forall s : curl_stream,
  curl_error (errbuf_after_all s l) = last_errtext (curl_error s) l.
Proof.
  induction l as [|g l IH]; intros s; [reflexivity|].
  change (errbuf_after_all s (g :: l)) with (errbuf_after_all (errbuf_after s g) l).
  rewrite IH. simpl. unfold errbuf_after. destruct (errtext g); reflexivity.
Qed.

Lemma last_errtext_written (m0 m : string) (l : list curl_reply) (g : curl_reply) :
  errtext g = Some m -> last_errtext m0 (l ++ [g]) = m.
Proof.
  intros H. unfold last_errtext. rewrite fold_left_app. simpl.
  rewrite H. reflexivity.
Qed.

Lemma last_errtext_silent (m0 : string) (l : list curl_reply) :
  Forall (fun r => errtext r = None) l -> last_errtext m0 l = m0.
Proof.
  induction l as [|g l IH]; intros H; [reflexivity|].
  unfold last_errtext in *. simpl.
  rewrite (Forall_inv H). apply IH. exact (Forall_inv_tail H).
Qed.

(** X7: the network error of a failed read says what libcurl last wrote
    into the stream's error buffer.  When [curl_easy_recv] fails, after any
    number of would-block answers, the error recorded is "curl error: "
    followed by the text the failing call wrote, if it wrote one; by the text
    the buffer held before the read if no call of the read wrote any, be it
    from an earlier operation on the stream; and in general by the last text
    written. *)
Theorem read_error_text (s : curl_stream) (w : world) (data len : Z)
    (agains : list curl_reply) (g : curl_reply) (rest : list curl_reply)
    (sel rest' : list Z) :
  recvs (env w) = (agains ++ g :: rest)%list ->
  Forall (fun r => code r = CURLE_AGAIN) agains ->
  hard_failure (code g) ->
  selects (env w) = (sel ++ rest')%list ->
  List.length sel = S (List.length agains) ->
  Forall (fun r => 0 <= r) sel ->
  exists s' w',
    run (curls_read s data len) w = Some (-1, s', w')
    /\ giterr w' =
         Some (GITERR_NET,
               "curl error: " ++ last_errtext (curl_error s) (agains ++ [g]) ++ newline)
    /\ (forall m, errtext g = Some m ->
        giterr w' = Some (GITERR_NET, "curl error: " ++ m ++ newline))
    /\ (Forall (fun r => errtext r = None) (agains ++ [g]) ->
        giterr w' = Some (GITERR_NET, "curl error: " ++ curl_error s ++ newline)).
Proof.
  intros Hrecv Hag [Hok Hnag] Hsel Hlen Hpos. rewrite run_curls_read.
  destruct (read_loop_retries data len g rest rest' agains
              (S (List.length (selects (env w)))) s w sel
              Hrecv Hag Hnag Hsel Hlen Hpos (Nat.lt_succ_diag_r _))
    as (ret & w' & Hrun & _ & _ & _ & _ & Hko).
  destruct (Hko Hok) as [Hret Herr]. subst ret.
  unfold net_error in Herr. rewrite curl_error_errbuf_after_all in Herr.
  do 2 eexists. split; [exact Hrun|]. split; [exact Herr|]. split.
  - intros m Hm. rewrite Herr, (last_errtext_written _ m _ _ Hm). reflexivity.
  - intros Hnone. rewrite Herr, (last_errtext_silent _ _ Hnone). reflexivity.
Qed.

(** A would-block, then a reset: the error carries libcurl's text for the
    reset, not the one connect had left in the buffer. *)
Lemma read_error_text_witness :
  exists s' w',
    run (curls_read stream_cert_failed 8192 10) world_read_breaks
      = Some (-1, s', w')
    /\ giterr w' =
         Some (GITERR_NET,
               "curl error: Recv failure: Connection reset by peer" ++ newline).
Proof.
  destruct (read_error_text stream_cert_failed world_read_breaks 8192 10
              [quiet CURLE_AGAIN 0]
              (mk_curl_reply (CURLE_other 56) 0
                 (Some "Recv failure: Connection reset by peer"))
              [] [1; 1] [])
    as (s' & w' & Hrun & _ & Htext & _).
  - reflexivity.
  - repeat constructor.
  - split; discriminate.
  - reflexivity.
  - reflexivity.
  - repeat constructor; discriminate.
  - exists s', w'. split; [exact Hrun|]. apply Htext. reflexivity.
Defined.

(** ** What the operations leave alone *)

Lemma errbuf_after_all_fields (l : list curl_reply) :
  forall s : curl_stream,
  handle (errbuf_after_all s l) = handle s
  /\ socket (errbuf_after_all s l) = socket s
  /\ parent (errbuf_after_all s l) = parent s
  /\ cert_info (errbuf_after_all s l) = cert_info s.
Proof.
  induction l as [|g l IH]; intros s; [repeat split|].
  change (errbuf_after_all s (g :: l)) with (errbuf_after_all (errbuf_after s g) l).
  destruct (IH (errbuf_after s g)) as (Hh & Hs & Hp & Hc).
  rewrite Hh, Hs, Hp, Hc.
  rewrite handle_errbuf_after, socket_errbuf_after, parent_errbuf_after,
    cert_info_errbuf_after.
  repeat split.
Qed.

(** X8: the header of the stream, with its [encrypted] flag and version, and
    the certificate record are changed by none of connect, read, write and
    close, whatever they return.  Connect keeps the handle as well; read
    and write keep the handle and the socket, so that the error buffer is
    all they change; close keeps the text of the error buffer. *)
Theorem stream_fields_kept (s : curl_stream) (w : world) (ret : Z)
    (s' : curl_stream) (w' : world) :
  (run (curls_connect s) w = Some (ret, s', w') ->
   parent s' = parent s /\ cert_info s' = cert_info s /\ handle s' = handle s)
  /\ (forall data len : Z,
        run (curls_read s data len) w = Some (ret, s', w') ->
        parent s' = parent s /\ cert_info s' = cert_info s
        /\ handle s' = handle s /\ socket s' = socket s)
  /\ (forall data len flags : Z,
        run (curls_write s data len flags) w = Some (ret, s', w') ->
        parent s' = parent s /\ cert_info s' = cert_info s
        /\ handle s' = handle s /\ socket s' = socket s)
  /\ (run (curls_close s) w = Some (ret, s', w') ->
      parent s' = parent s /\ cert_info s' = cert_info s
      /\ curl_error s' = curl_error s).
Proof.
  split; [|split; [|split]].
  - intros H. destruct (performs (env w)) as [|r q] eqn:Hp.
    { unfold curls_connect in H. rewrite run_bind in H.
      rewrite (run_perform_blocked _ _ Hp) in H. discriminate H. }
    rewrite (connect_after_perform _ _ _ _ Hp) in H. cbv zeta in H.
    destruct (negb (CURLcode_eqb (code r) CURLE_OK)
              && negb (CURLcode_eqb (code r) CURLE_PEER_FAILED_VERIFICATION)).
    { inversion H; subst.
      rewrite parent_errbuf_after, cert_info_errbuf_after, handle_errbuf_after.
      repeat split. }
    destruct (run (curl_easy_getinfo_lastsocket _) _) as [[g w2]|];
      [|discriminate H].
    destruct (negb (CURLcode_eqb (code g) CURLE_OK)).
    { inversion H; subst.
      rewrite !parent_errbuf_after, !cert_info_errbuf_after, !handle_errbuf_after.
      repeat split. }
    destruct (_ && _) in H; inversion H; subst; simpl;
      rewrite !parent_errbuf_after, !cert_info_errbuf_after, !handle_errbuf_after;
      repeat split.
  - intros data len H. rewrite run_curls_read in H.
    apply read_loop_returns in H. destruct H as (used & _ & Hs' & _). subst s'.
    destruct (errbuf_after_all_fields used s) as (Hh & Hs & Hp & Hc).
    repeat split; assumption.
  - intros data len flags H. rewrite run_curls_write in H.
    apply write_loop_returns in H. destruct H as (used & _ & Hs' & _). subst s'.
    destruct (errbuf_after_all_fields used s) as (Hh & Hs & Hp & Hc).
    repeat split; assumption.
  - unfold curls_close. destruct (truthy (handle s)); simpl; intros H;
      inversion H; subst; repeat split.
Qed.

(** The encrypted stream of [world_cert_failed] is still encrypted, and has
    its handle, when connect has returned the certificate error. *)
Lemma stream_fields_kept_witness :
  parent stream_cert_failed = parent (fresh_stream 1)
  /\ cert_info stream_cert_failed = cert_info (fresh_stream 1)
  /\ handle stream_cert_failed = handle (fresh_stream 1).
Proof.
  exact (proj1 (stream_fields_kept (fresh_stream 1) world_cert_failed
                  GIT_ECERTIFICATE stream_cert_failed world_after_cert_failed)
           eq_refl).
Defined.

(** ** free *)

(** X9: [curls_free] releases the transport handle exactly when the stream
    still has one, and always frees the stream after that; on a stream that
    close has been through it frees the stream and releases nothing a
    second time.  It records no error. *)
Theorem free_releases_once (s : curl_stream) (w : world) :
  run (curls_free s) w =
    Some (tt, logged Call_free
                (if truthy (handle s) then logged (Call_cleanup (handle s)) w else w))
  /\ (forall (r : Z) (s1 : curl_stream) (w1 : world),
        run (curls_close s) w = Some (r, s1, w1) ->
        run (curls_free s1) w1 = Some (tt, logged Call_free w1)
        /\ trace w1 = (trace w ++ (if truthy (handle s)
                                   then [Call_cleanup (handle s)] else []))%list).
Proof.
  assert (Hfree : forall (s0 : curl_stream) (w0 : world),
             run (curls_free s0) w0 =
               Some (tt, logged Call_free
                           (if truthy (handle s0)
                            then logged (Call_cleanup (handle s0)) w0 else w0))).
  { intros s0 w0. unfold curls_free, curls_close.
    destruct (truthy (handle s0)); reflexivity. }
  split; [apply Hfree|].
  intros r s1 w1 H. pose proof (close_result _ _ _ _ _ H) as (_ & Hnull & _).
  rewrite Hfree, Hnull. split; [reflexivity|].
  unfold curls_close in H. destruct (truthy (handle s)); simpl in H;
    inversion H; subst; simpl; [reflexivity | rewrite app_nil_r; reflexivity].
Qed.

(** Close, then free, on a stream with its handle at 4096: one release. *)
Lemma free_releases_once_witness :
  run (curls_free stream_closed) (logged (Call_cleanup 4096) world_after_cert_failed)
    = Some (tt, logged Call_free (logged (Call_cleanup 4096) world_after_cert_failed))
  /\ trace (logged (Call_cleanup 4096) world_after_cert_failed)
     = (trace world_after_cert_failed ++ [Call_cleanup 4096])%list.
Proof.
  exact (proj2 (free_releases_once stream_cert_failed world_after_cert_failed)
           0 stream_closed (logged (Call_cleanup 4096) world_after_cert_failed)
           eq_refl).
Defined.

(** ** More on the factory *)

Lemma run_calloc_blocked (w : world) :
  callocs (env w) = [] -> run git__calloc w = None.
Proof. intros H. take_reply H. Qed.

Lemma run_init_blocked (w : world) :
  inits (env w) = [] -> run curl_easy_init w = None.
Proof. intros H. take_reply H. Qed.

(** The factory once the stream is allocated and the handle [h] created:
    what is left is the parser's verdict and, if it is not an error, the six
    options and the stream. *)
Lemma factory_after_init (git__strtol32 : string -> Z -> W (Z * option Z))
    (host port : string) (enc : Z) (w : world) (qa : list bool) (h : Z)
    (qi : list Z) :
  callocs (env w) = true :: qa ->
  inits (env w) = h :: qi ->
  h <> NULL ->
  run (git_curl_stream_new git__strtol32 host port enc) w =
  match run (git__strtol32 port 10)
          (with_env (rest_inits (rest_callocs (env w) qa) qi)
             (logged Call_init (logged Call_calloc w))) with
  | None => None
  | Some ((e, v), w2) =>
    if e <? 0 then Some ((e, None), w2)
    else
      Some ((0, Some (mk_curl_stream (mk_git_stream GIT_STREAM_VERSION enc) h 0 ""
                        (mk_git_cert_x509 GIT_CERT_NONE NULL 0))),
            mk_world (giterr w2)
              (trace w2 ++
               [Call_setopt h
                  (CURLOPT_URL (if truthy enc then "https://" ++ host else host));
                Call_setopt h CURLOPT_ERRORBUFFER;
                Call_setopt h (CURLOPT_PORT (match v with Some p => p | None => 0 end));
                Call_setopt h (CURLOPT_CONNECT_ONLY 1);
                Call_setopt h (CURLOPT_SSL_VERIFYPEER 1);
                Call_setopt h (CURLOPT_CERTINFO 1)])
              (env w2))
  end.
Proof.
  intros Ha Hi Hh. unfold git_curl_stream_new.
  rewrite run_bind, (run_calloc _ _ _ Ha). cbn [negb]. cbv iota.
  rewrite run_bind, (run_init _ h qi) by exact Hi.
  destruct (Z.eqb_spec h NULL) as [E|_]; [contradiction|].
  rewrite run_bind.
  change (with_env (rest_inits
                      (env (with_env (rest_callocs (env w) qa) (logged Call_calloc w)))
                      qi)
            (logged Call_init
               (with_env (rest_callocs (env w) qa) (logged Call_calloc w))))
    with (with_env (rest_inits (rest_callocs (env w) qa) qi)
            (logged Call_init (logged Call_calloc w))).
  destruct (run (git__strtol32 port 10) _) as [[[e v] w2]|]; [|reflexivity].
  cbn [fst snd]. destruct (e <? 0); [reflexivity|].
  destruct (truthy enc); unfold run; simpl; rewrite <- !app_assoc; reflexivity.
Qed.

(** X10: when the allocation and the creation of the handle succeed and the
    parser reports no error for the port, the factory returns 0 and hands
    out a stream that holds the new handle and the caller's [encrypted], has
    socket 0 and an empty certificate record.  On the handle it has set, in
    this order: the URL, which is the host with "https://" before it exactly
    when [encrypted] is not zero, the error buffer, the port the parser
    found, connect-only mode, verification of the peer, and certificate
    information. *)
Theorem factory_success (git__strtol32 : string -> Z -> W (Z * option Z))
    (host port : string) (enc : Z) (w : world) (qa : list bool) (h : Z)
    (qi : list Z) (e p : Z) (w2 : world) :
  callocs (env w) = true :: qa ->
  inits (env w) = h :: qi ->
  h <> NULL ->
  run (git__strtol32 port 10)
      (with_env (rest_inits (rest_callocs (env w) qa) qi)
         (logged Call_init (logged Call_calloc w)))
    = Some ((e, Some p), w2) ->
  0 <= e ->
  exists st w',
    run (git_curl_stream_new git__strtol32 host port enc) w = Some ((0, Some st), w')
    /\ handle st = h /\ socket st = 0
    /\ encrypted (parent st) = enc
    /\ version (parent st) = GIT_STREAM_VERSION
    /\ cert_info st = mk_git_cert_x509 GIT_CERT_NONE NULL 0
    /\ giterr w' = giterr w2
    /\ trace w' =
         (trace w2 ++
          [Call_setopt h (CURLOPT_URL (if truthy enc then "https://" ++ host else host));
           Call_setopt h CURLOPT_ERRORBUFFER;
           Call_setopt h (CURLOPT_PORT p);
           Call_setopt h (CURLOPT_CONNECT_ONLY 1);
           Call_setopt h (CURLOPT_SSL_VERIFYPEER 1);
           Call_setopt h (CURLOPT_CERTINFO 1)])%list.
Proof.
  intros Ha Hi Hh Hp He.
  rewrite (factory_after_init _ _ _ _ _ _ _ _ Ha Hi Hh), Hp.
  destruct (Z.ltb_spec e 0); [lia|].
  do 2 eexists. split; [reflexivity|]. repeat split.
Qed.

(** The port "443" on an unencrypted stream: the URL is the bare host. *)
Lemma factory_success_witness :
  exists st w',
    run (git_curl_stream_new strtol32_dec "example.org" "443" 0) world_factory
      = Some ((0, Some st), w')
    /\ handle st = 4096
    /\ encrypted (parent st) = 0
    /\ trace w' =
         [Call_calloc; Call_init;
          Call_setopt 4096 (CURLOPT_URL "example.org");
          Call_setopt 4096 CURLOPT_ERRORBUFFER;
          Call_setopt 4096 (CURLOPT_PORT 443);
          Call_setopt 4096 (CURLOPT_CONNECT_ONLY 1);
          Call_setopt 4096 (CURLOPT_SSL_VERIFYPEER 1);
          Call_setopt 4096 (CURLOPT_CERTINFO 1)].
Proof.
  destruct (factory_success strtol32_dec "example.org" "443" 0 world_factory
              [] 4096 [] 0 443
              (mk_world None [Call_calloc; Call_init] no_replies)
              eq_refl eq_refl ltac:(discriminate) eq_refl ltac:(lia))
    as (st & w' & Hrun & Hh & _ & Henc & _ & _ & _ & Htr).
  exists st, w'. split; [exact Hrun|]. split; [exact Hh|].
  split; [exact Henc | exact Htr].
Defined.

(** X11: whatever the parser and the world, the factory returns 0 exactly
    when it hands out a stream, and a negative value otherwise.  A stream it
    hands out has a handle that is not null, on which connect-only mode and
    the verification of the peer have been switched on, socket 0, and the
    caller's [encrypted]. *)
Theorem factory_result_cases (git__strtol32 : string -> Z -> W (Z * option Z))
    (host port : string) (enc : Z) (w : world) (ret : Z)
    (o : option curl_stream) (w' : world) :
  run (git_curl_stream_new git__strtol32 host port enc) w = Some ((ret, o), w') ->
  (ret < 0 /\ o = None)
  \/ (ret = 0
      /\ exists st,
           o = Some st
           /\ handle st <> NULL
           /\ socket st = 0
           /\ encrypted (parent st) = enc
           /\ In (Call_setopt (handle st) (CURLOPT_CONNECT_ONLY 1)) (trace w')
           /\ In (Call_setopt (handle st) (CURLOPT_SSL_VERIFYPEER 1)) (trace w')).
Proof.
  intros H. destruct (callocs (env w)) as [|b qa] eqn:Ha.
  { unfold git_curl_stream_new in H. rewrite run_bind in H.
    rewrite (run_calloc_blocked _ Ha) in H. discriminate H. }
  destruct b.
  2: { unfold git_curl_stream_new in H.
       rewrite run_bind, (run_calloc _ _ _ Ha) in H. cbn [negb] in H.
       inversion H; subst. left. split; [lia | reflexivity]. }
  destruct (inits (env w)) as [|h qi] eqn:Hi.
  { unfold git_curl_stream_new in H.
    rewrite run_bind, (run_calloc _ _ _ Ha) in H. cbn [negb] in H. cbv iota in H.
    rewrite run_bind in H. rewrite run_init_blocked in H by exact Hi.
    discriminate H. }
  destruct (Z.eq_dec h NULL) as [Hh|Hh].
  { unfold git_curl_stream_new in H.
    rewrite run_bind, (run_calloc _ _ _ Ha) in H. cbn [negb] in H. cbv iota in H.
    rewrite run_bind, (run_init _ h qi) in H by exact Hi.
    subst h. change (NULL =? NULL) with true in H. cbv iota in H.
    inversion H; subst. left. split; [lia | reflexivity]. }
  rewrite (factory_after_init _ _ _ _ _ _ _ _ Ha Hi Hh) in H.
  destruct (run (git__strtol32 port 10) _) as [[[e v] w2]|]; [|discriminate H].
  destruct (Z.ltb_spec e 0).
  - inversion H; subst. left. split; [assumption | reflexivity].
  - inversion H; subst. right. split; [reflexivity|].
    eexists. split; [reflexivity|]. cbn [handle socket parent encrypted trace].
    split; [exact Hh|]. split; [reflexivity|]. split; [reflexivity|].
    split; apply in_or_app; right; simpl; tauto.
Qed.

(** The run with the port "abc": a negative result, no stream. *)
Lemma factory_result_cases_witness :
  -1 < 0 /\ @None curl_stream = None.
Proof.
  destruct (factory_result_cases strtol32_dec "example.org" "abc" 1 world_factory
              (-1) None
              (mk_world
                 (Some (GITERR_INVALID, "Failed to convert string to long. Not a number"))
                 [Call_calloc; Call_init] no_replies)
              eq_refl)
    as [Hfail | [Hzero _]].
  - exact Hfail.
  - discriminate Hzero.
Defined.

(** X12: the factory gives up at the first thing that fails.  When the
    allocation fails it returns -1 and has called nothing else: no handle is
    created.  When the handle cannot be created it returns -1 with a network
    error, and the port is never parsed: the result is the same for every
    parser and every port.  No stream is handed out either way. *)
Theorem factory_early_failures (git__strtol32 : string -> Z -> W (Z * option Z))
    (host port : string) (enc : Z) (w : world) (qa : list bool) :
  (callocs (env w) = false :: qa ->
   exists w',
     run (git_curl_stream_new git__strtol32 host port enc) w = Some ((-1, None), w')
     /\ trace w' = (trace w ++ [Call_calloc])%list
     /\ inits (env w') = inits (env w))
  /\ (forall qi : list Z,
        callocs (env w) = true :: qa ->
        inits (env w) = NULL :: qi ->
        run (git_curl_stream_new git__strtol32 host port enc) w
          = Some ((-1, None),
                  failed GITERR_NET "failed to create curl handle"
                    (with_env (rest_inits (rest_callocs (env w) qa) qi)
                       (logged Call_init (logged Call_calloc w))))).
Proof.
  split.
  - intros Ha. unfold git_curl_stream_new.
    rewrite run_bind, (run_calloc _ _ _ Ha). cbn [negb]. cbv iota.
    eexists. split; [reflexivity|]. split; reflexivity.
  - intros qi Ha Hi. unfold git_curl_stream_new.
    rewrite run_bind, (run_calloc _ _ _ Ha). cbn [negb]. cbv iota.
    rewrite run_bind, (run_init _ NULL qi) by exact Hi. reflexivity.
Qed.

(** No memory: one call, and the reply of [curl_easy_init] is still to come.
    No handle: the port "443" is as good as none. *)
Lemma factory_early_failures_witness :
  (exists w',
     run (git_curl_stream_new strtol32_dec "example.org" "443" 1) world_no_memory
       = Some ((-1, None), w')
     /\ trace w' = [Call_calloc]
     /\ inits (env w') = [4096])
  /\ run (git_curl_stream_new strtol32_dec "example.org" "443" 1)
         world_factory_no_handle
     = Some ((-1, None),
             mk_world (Some (GITERR_NET, "failed to create curl handle"))
               [Call_calloc; Call_init] no_replies).
Proof.
  split.
  - exact (proj1 (factory_early_failures strtol32_dec "example.org" "443" 1
                    world_no_memory []) eq_refl).
  - exact (proj2 (factory_early_failures strtol32_dec "example.org" "443" 1
                    world_factory_no_handle []) [] eq_refl eq_refl).
Defined.

(** ** From connect to read and write *)

Lemma connect_socket_after_success (s : curl_stream) (w : world) (ret : Z)
    (s1 : curl_stream) (w1 : world) :
  run (curls_connect s) w = Some (ret, s1, w1) ->
  ret <> -1 ->
  exists g q',
    getinfos (env w) = g :: q' /\ socket s1 = int_of_long (out g).
Proof.
  intros H Hret. destruct (performs (env w)) as [|r q] eqn:Hp.
  { unfold curls_connect in H. rewrite run_bind in H.
    rewrite (run_perform_blocked _ _ Hp) in H. discriminate H. }
  rewrite (connect_after_perform _ _ _ _ Hp) in H. cbv zeta in H.
  destruct (negb (CURLcode_eqb (code r) CURLE_OK)
            && negb (CURLcode_eqb (code r) CURLE_PEER_FAILED_VERIFICATION)).
  { inversion H; subst. contradiction. }
  destruct (getinfos (env w)) as [|g q'] eqn:Hg.
  { rewrite run_getinfo_blocked in H by exact Hg. discriminate H. }
  rewrite (run_getinfo _ _ g q') in H by exact Hg.
  exists g, q'. split; [reflexivity|].
  destruct (negb (CURLcode_eqb (code g) CURLE_OK)).
  { inversion H; subst. contradiction. }
  destruct (_ && _) in H; inversion H; subst; reflexivity.
Qed.

Lemma read_rounds_head (k : nat) (s : curl_stream) (data len : Z) (tl : list call) :
  (k <> 0)%nat \/ tl = [wait_call (socket s) true] ->
  exists rest,
    (read_rounds k s data len ++ tl)%list = wait_call (socket s) true :: rest.
Proof.
  intros H. destruct k as [|k].
  - destruct H as [H|H]; [contradiction|]. subst tl. exists []. reflexivity.
  - simpl. eexists. reflexivity.
Qed.

Lemma write_rounds_head (s : curl_stream) (data len off : Z)
    (l : list curl_reply) (tl : list call) :
  l <> [] \/ tl = [wait_call (socket s) false] ->
  exists rest,
    (write_rounds s data len off l ++ tl)%list = wait_call (socket s) false :: rest.
Proof.
  intros H. destruct l as [|g l].
  - destruct H as [H|H]; [contradiction|]. subst tl. exists []. reflexivity.
  - simpl. eexists. reflexivity.
Qed.

(** X13: the descriptor read and write wait on is the one connect took from
    the handle.  When [curls_connect] returns anything but -1, the value
    [curl_easy_getinfo] gave, stored as an [int], is the socket of the
    stream; and when that value is a descriptor an [fd_set] can hold, from 0
    to [FD_SETSIZE] - 1, the first call of every read and of every write on
    that stream that returns is a [select] on that descriptor, for reading
    or for writing. *)
Theorem io_waits_on_connected_socket (s : curl_stream) (w : world) (ret : Z)
    (s1 : curl_stream) (w1 : world) :
  run (curls_connect s) w = Some (ret, s1, w1) ->
  ret <> -1 ->
  exists g q',
    getinfos (env w) = g :: q'
    /\ socket s1 = int_of_long (out g)
    /\ (0 <= int_of_long (out g) < FD_SETSIZE ->
        (forall (data len ret2 : Z) (s2 : curl_stream) (w2 : world),
           run (curls_read s1 data len) w1 = Some (ret2, s2, w2) ->
           exists rest,
             trace w2 = (trace w1 ++ wait_call (int_of_long (out g)) true :: rest)%list)
        /\ (forall (data len flags ret2 : Z) (s2 : curl_stream) (w2 : world),
              run (curls_write s1 data len flags) w1 = Some (ret2, s2, w2) ->
              exists rest,
                trace w2 = (trace w1 ++ wait_call (int_of_long (out g)) false
                              :: rest)%list)).
Proof.
  intros H Hret.
  destruct (connect_socket_after_success _ _ _ _ _ H Hret) as (g & q' & Hg & Hsock).
  exists g, q'. split; [exact Hg|]. split; [exact Hsock|].
  intros _. rewrite <- Hsock. split.
  - intros data len ret2 s2 w2 Hread. rewrite run_curls_read in Hread.
    apply read_loop_returns in Hread.
    destruct Hread as (used & _ & _ & [(_ & _ & _ & Htr) | (pre & g' & Hu & _ & _ & Htr & _)]).
    + destruct (read_rounds_head (List.length used) s1 data len
                  [wait_call (socket s1) true]) as (rest & E); [right; reflexivity|].
      exists rest. rewrite Htr, E. reflexivity.
    + destruct (read_rounds_head (List.length used) s1 data len []) as (rest & E).
      { left. subst used. rewrite length_app. simpl. lia. }
      rewrite app_nil_r in E. exists rest. rewrite Htr, E. reflexivity.
  - intros data len flags ret2 s2 w2 Hwrite. rewrite run_curls_write in Hwrite.
    apply write_loop_returns in Hwrite.
    destruct Hwrite as (used & _ & _ & [(_ & _ & Htr) | (pre & g' & Hu & Htr & _)]).
    + destruct used as [|u used].
      * exists []. rewrite Htr. reflexivity.
      * simpl in Htr. eexists. rewrite Htr. reflexivity.
    + destruct (write_rounds_head s1 data len 0 used []) as (rest & E).
      { left. subst used. destruct pre; discriminate. }
      rewrite app_nil_r in E. exists rest. rewrite Htr, E. reflexivity.
Qed.

(** Connect leaves descriptor 5 in the stream; the read that follows, whose
    wait fails, has called [select] on descriptor 5 for reading. *)
Lemma io_waits_on_connected_socket_witness :
  exists g q' rest,
    getinfos (env world_cert_failed_wait_fails) = g :: q'
    /\ socket stream_cert_failed = int_of_long (out g)
    /\ 0 <= int_of_long (out g) < FD_SETSIZE
    /\ [Call_perform 4096; Call_getinfo_lastsocket 4096; Call_select 6 [5] [] [5]]
       = ([Call_perform 4096; Call_getinfo_lastsocket 4096]
            ++ wait_call (int_of_long (out g)) true :: rest)%list.
Proof.
  destruct (io_waits_on_connected_socket (fresh_stream 1)
              world_cert_failed_wait_fails GIT_ECERTIFICATE stream_cert_failed
              (mk_world None [Call_perform 4096; Call_getinfo_lastsocket 4096]
                 (mk_pending [] [] [] [] [] [] [-1]))
              eq_refl ltac:(discriminate))
    as (g & q' & Hg & Hsock & Hio).
  assert (Hrange : 0 <= int_of_long (out g) < FD_SETSIZE).
  { rewrite <- Hsock. unfold FD_SETSIZE. simpl. lia. }
  destruct (proj1 (Hio Hrange) 8192 10 (-1) stream_cert_failed
              (mk_world select_error
                 [Call_perform 4096; Call_getinfo_lastsocket 4096;
                  Call_select 6 [5] [] [5]]
                 no_replies)
              eq_refl)
    as (rest & Htr).
  exists g, q', rest. split; [exact Hg|]. split; [exact Hsock|].
  split; [exact Hrange | exact Htr].
Defined.

(** ** read and write after close *)





